(** * process_spoons: the price pipeline of the pint price index

    A shallow embedding of [process_spoons.py].  The script loads a JSON
    snapshot of pubs and drinks, keeps the beers ([is_beer]), reduces every
    pub to price statistics and a de-duplicated drink list, rolls the pubs
    up into regions and writes leaderboards.

    Conventions of the embedding.
    - A value produced by [json.load] is a [json] term.  A JSON object is an
      association list in insertion order, with pairwise distinct keys.
    - Python exceptions are the [Raise] results of the [result] monad.
    - A number is the rational it denotes ([Q]), be it a Python int or a
      finite float; the literals [NaN] and [Infinity], which [json.load]
      accepts although they are not JSON, are no [json] terms.
      Comparisons of numbers are exact, as they are in Python.  Sums,
      quotients and [round(x, 2)] are computed exactly, where Python
      rounds to binary64: the general properties below use them for what
      depends on what, and assert no value of a sum, a mean or a
      rounding.  The one example that gives such a value uses a price for
      which the floats give the same.
    - A string is the sequence of the bytes of its UTF-8 encoding.
      [strip] removes the Unicode white space that [str.strip] removes;
      [lower] changes the ASCII letters and leaves the other characters
      as they are. *)

From Stdlib Require Import List Bool Arith ZArith QArith Qabs Qround Lia Lqa.
From Stdlib Require Import Ascii String.
From Stdlib Require Import Permutation Sorted.
Import ListNotations.

Local Open Scope string_scope.
Local Open Scope list_scope.
Local Set Warnings "-register-all".

(** ** Python values and exceptions *)

Inductive exn : Type :=
  | AttributeError
  | KeyError
  | TypeError
  | ValueError
  | ZeroDivisionError
  | OverflowError.

Inductive result (A : Type) : Type :=
  | Ok (a : A)
  | Raise (e : exn).

Arguments Ok {A} a.
Arguments Raise {A} e.

Definition bind {A B : Type} (m : result A) (k : A -> result B) : result B :=
  match m with
  | Ok a => k a
  | Raise e => Raise e
  end.

Notation "x <- m ;; k" := (bind m (fun x => k))
  (at level 61, m at next level, right associativity).

(** Evaluation of the elements of a comprehension, left to right; the
    first exception ends it. *)
Fixpoint mapM {A B : Type} (f : A -> result B) (l : list A) : result (list B) :=
  match l with
  | [] => Ok []
  | a :: l' => b <- f a ;; bs <- mapM f l' ;; Ok (b :: bs)
  end.

Inductive json : Type :=
  | JNull
  | JBool (b : bool)
  | JNum (q : Q)
  | JStr (s : string)
  | JList (l : list json)
  | JDict (kv : list (string * json)).

(** ** Dictionaries *)

Fixpoint assoc {V : Type} (k : string) (kv : list (string * V)) : option V :=
  match kv with
  | [] => None
  | (k', v) :: kv' => if String.eqb k k' then Some v else assoc k kv'
  end.

(** [d.get(k, dflt)]: only a dict has the method. *)
Definition get_default (d : json) (k : string) (dflt : json) : result json :=
  match d with
  | JDict kv => Ok (match assoc k kv with Some v => v | None => dflt end)
  | _ => Raise AttributeError
  end.

(** [d.get(k)], whose default is [None]. *)
Definition get (d : json) (k : string) : result json := get_default d k JNull.

(** [d[k]].  On a dict a missing key is a [KeyError]; a list or a string
    indexed by a string, and a value without subscript, are [TypeError]s. *)
Definition subscript (d : json) (k : string) : result json :=
  match d with
  | JDict kv => match assoc k kv with Some v => Ok v | None => Raise KeyError end
  | _ => Raise TypeError
  end.

(** ** Truth, numbers, iteration *)

Definition Qzero_b (q : Q) : bool := Qeq_bool q 0.

(** Truth value of a Python object. *)
Definition truthy (v : json) : bool :=
  match v with
  | JNull => false
  | JBool b => b
  | JNum q => negb (Qzero_b q)
  | JStr s => negb (String.eqb s "")
  | JList l => match l with [] => false | _ => true end
  | JDict kv => match kv with [] => false | _ => true end
  end.

(** The number a value denotes in arithmetic; [bool] is a subtype of
    [int]. *)
Definition as_num (v : json) : option Q :=
  match v with
  | JNum q => Some q
  | JBool true => Some 1%Q
  | JBool false => Some 0%Q
  | _ => None
  end.

Definition chars (s : string) : list json :=
  map (fun c => JStr (String c EmptyString)) (list_ascii_of_string s).

(** The elements a [for] loop or a comprehension visits. *)
Definition iterate (v : json) : result (list json) :=
  match v with
  | JList l => Ok l
  | JStr s => Ok (chars s)
  | JDict kv => Ok (map (fun p => JStr (fst p)) kv)
  | _ => Raise TypeError
  end.

(** ** Strings *)

Definition is_upper (c : ascii) : bool :=
  (Ascii.leb "A" c && Ascii.leb c "Z")%bool.

Definition lower_ascii (c : ascii) : ascii :=
  if is_upper c then ascii_of_nat (nat_of_ascii c + 32) else c.

Fixpoint lower (s : string) : string :=
  match s with
  | EmptyString => EmptyString
  | String c s' => String (lower_ascii c) (lower s')
  end.

(** [v.lower()]: a method of [str] only. *)
Definition py_lower (v : json) : result string :=
  match v with
  | JStr s => Ok (lower s)
  | _ => Raise AttributeError
  end.

(** [sub in s] on strings. *)
Fixpoint str_in (sub s : string) : bool :=
  (String.prefix sub s ||
   match s with
   | EmptyString => false
   | String _ s' => str_in sub s'
   end)%bool.

(** Bytes by their numbers. *)
Definition bytes (l : list nat) : list ascii := map ascii_of_nat l.

(** The white space of C: tab, line feed, vertical tab, form feed,
    carriage return and space. *)
Definition ascii_space : list (list ascii) :=
  map bytes [[9]; [10]; [11]; [12]; [13]; [32]]%nat.

(** The separators 28 to 31, white space for [str] but not for C. *)
Definition ascii_separators : list (list ascii) :=
  map bytes [[28]; [29]; [30]; [31]]%nat.

(** The white space beyond ASCII, in UTF-8: U+0085, U+00A0, U+1680,
    U+2000 to U+200A, U+2028, U+2029, U+202F, U+205F and U+3000. *)
Definition unicode_space : list (list ascii) :=
  map bytes
    [[194; 133]; [194; 160]; [225; 154; 128];
     [226; 128; 128]; [226; 128; 129]; [226; 128; 130]; [226; 128; 131];
     [226; 128; 132]; [226; 128; 133]; [226; 128; 134]; [226; 128; 135];
     [226; 128; 136]; [226; 128; 137]; [226; 128; 138];
     [226; 128; 168]; [226; 128; 169]; [226; 128; 175];
     [226; 129; 159]; [227; 128; 128]]%nat.

(** The characters that [str.strip] removes. *)
Definition whitespace : list (list ascii) :=
  ascii_space ++ ascii_separators ++ unicode_space.

(** The characters that [float] removes around a literal: it turns the
    white space beyond ASCII into spaces, then skips the white space of
    C. *)
Definition float_whitespace : list (list ascii) :=
  ascii_space ++ unicode_space.

(** [s] without its prefix [w], when it has that prefix. *)
Fixpoint drop_prefix (w s : list ascii) : option (list ascii) :=
  match w, s with
  | [], _ => Some s
  | a :: w', c :: s' => if Ascii.eqb a c then drop_prefix w' s' else None
  | _ :: _, [] => None
  end.

(** [s] without its first character, when that is one of [table]. *)
Fixpoint drop_word (table : list (list ascii)) (s : list ascii)
  : option (list ascii) :=
  match table with
  | [] => None
  | w :: table' =>
      match drop_prefix w s with
      | Some r => Some r
      | None => drop_word table' s
      end
  end.

(** [n] characters of [table] are dropped from the front at most. *)
Fixpoint lstrip_n (table : list (list ascii)) (n : nat) (s : list ascii)
  : list ascii :=
  match n with
  | O => s
  | S n' =>
      match drop_word table s with
      | Some r => lstrip_n table n' r
      | None => s
      end
  end.

Definition lstrip (table : list (list ascii)) (s : list ascii) : list ascii :=
  lstrip_n table (List.length s) s.

(** The characters of [table] are dropped at both ends; at the right end
    they are read backwards. *)
Definition strip_by (table : list (list ascii)) (s : list ascii) : list ascii :=
  rev (lstrip (map (@rev ascii) table) (rev (lstrip table s))).

Definition strip_chars (s : list ascii) : list ascii := strip_by whitespace s.

Definition strip (s : string) : string :=
  string_of_list_ascii (strip_chars (list_ascii_of_string s)).

(** [v.strip()]. *)
Definition py_strip (v : json) : result string :=
  match v with
  | JStr s => Ok (strip s)
  | _ => Raise AttributeError
  end.

(** ** Conversion to float

    [float(v)] accepts a number or a string.  An int beyond the range of
    the floats raises [OverflowError].  A string is stripped, then read as
    an optionally signed decimal literal (digits may be grouped by single
    underscores) or as one of [inf], [infinity] and [nan] in any case; a
    literal beyond the range of the floats is infinite, one that is too
    small is zero.  The digits read are the ASCII digits.  The result is
    only ever compared with zero, and stands for the float by its sign. *)

Inductive xfloat : Type :=
  | Fin (q : Q)
  | PosInf
  | NegInf
  | NaN.

Definition is_digit (c : ascii) : bool :=
  (Ascii.leb "0" c && Ascii.leb c "9")%bool.

Definition digit_val (c : ascii) : Z := Z.of_nat (nat_of_ascii c - 48).

(** The rest of a digit part whose first digit has been read: the value
    so far, the number of digits so far and the input left. *)
Fixpoint more_digits (v : Z) (n : nat) (s : list ascii) {struct s}
  : Z * nat * list ascii :=
  match s with
  | c :: s' =>
      if is_digit c then more_digits (10 * v + digit_val c) (S n) s'
      else if Ascii.eqb c "_" then
        match s' with
        | c' :: s'' =>
            if is_digit c' then more_digits (10 * v + digit_val c') (S n) s''
            else (v, n, s)
        | [] => (v, n, s)
        end
      else (v, n, s)
  | [] => (v, n, [])
  end.

Definition digitpart (v : Z) (s : list ascii) : option (Z * nat * list ascii) :=
  match s with
  | c :: s' =>
      if is_digit c then Some (more_digits (10 * v + digit_val c) 1 s') else None
  | [] => None
  end.

Definition read_sign (s : list ascii) : bool * list ascii :=
  match s with
  | c :: s' =>
      if Ascii.eqb c "-" then (true, s')
      else if Ascii.eqb c "+" then (false, s')
      else (false, s)
  | [] => (false, [])
  end.

Definition pow10 (e : Z) : Q := Qpower (10 # 1) e.

Definition read_exponent (m : Q) (s : list ascii) : option Q :=
  match s with
  | [] => Some m
  | c :: s' =>
      if (Ascii.eqb c "e" || Ascii.eqb c "E")%bool then
        let (neg, s'') := read_sign s' in
        match digitpart 0 s'' with
        | Some (e, _, []) => Some (m * pow10 (if neg then - e else e))%Q
        | _ => None
        end
      else None
  end.

Definition read_decimal (s : list ascii) : option Q :=
  let '(iv, has_int, r1) :=
    match digitpart 0 s with
    | Some (v, _, r) => (v, true, r)
    | None => (0%Z, false, s)
    end in
  let '(mv, fd, has_frac, r2) :=
    match r1 with
    | c :: r =>
        if Ascii.eqb c "." then
          match digitpart iv r with
          | Some (v, n, r') => (v, n, true, r')
          | None => (iv, 0%nat, false, r)
          end
        else (iv, 0%nat, false, r1)
    | [] => (iv, 0%nat, false, r1)
    end in
  if (has_int || has_frac)%bool
  then read_exponent (inject_Z mv * pow10 (- Z.of_nat fd))%Q r2
  else None.

(** The least magnitude that rounds beyond the greatest float, and the
    greatest magnitude that rounds to zero. *)
Definition overflow_bound : Q := inject_Z (2 ^ 1024 - 2 ^ 970).

Definition underflow_bound : Q := 1 # (2 ^ 1075).

(** The float nearest to [q], as far as its sign tells. *)
Definition to_float (q : Q) : xfloat :=
  if Qle_bool overflow_bound (Qabs q)
  then (if Qle_bool 0 q then PosInf else NegInf)
  else if Qle_bool (Qabs q) underflow_bound then Fin 0
  else Fin q.

Definition float_of_string (s : string) : option xfloat :=
  let (neg, body) :=
    read_sign (strip_by float_whitespace (list_ascii_of_string s)) in
  let word := lower (string_of_list_ascii body) in
  if (String.eqb word "inf" || String.eqb word "infinity")%bool
  then Some (if neg then NegInf else PosInf)
  else if String.eqb word "nan" then Some NaN
  else match read_decimal body with
       | Some q => Some (to_float (if neg then - q else q)%Q)
       | None => None
       end.

(** [float(v)].  A number of that magnitude is an int: no float is that
    large. *)
Definition py_float (v : json) : result xfloat :=
  match v with
  | JNum q =>
      if Qle_bool overflow_bound (Qabs q) then Raise OverflowError
      else Ok (Fin q)
  | JBool b => Ok (Fin (if b then 1 else 0)%Q)
  | JStr s =>
      match float_of_string s with
      | Some x => Ok x
      | None => Raise ValueError
      end
  | _ => Raise TypeError
  end.

(** [x <= 0] on floats. *)
Definition le_zero (x : xfloat) : bool :=
  match x with
  | Fin q => Qle_bool q 0
  | NegInf => true
  | PosInf | NaN => false
  end.

(** ** The classifier *)

Definition BEER_CATS : list string :=
  ["lager"; "beer"; "stout"; "craft"; "cider"; "ale"; "world beer"].

Definition exclude : list string :=
  ["cordial"; "juice"; "water"; "coffee"; "tea"; "pepsi"; "cola";
   "lemonade"; "j2o"; "appletiser"; "ginger"].

(** The [try] block of [is_beer]: [false] stands for the early
    [return False], [true] for falling through to the name check.  Only
    [ValueError] and [TypeError] are handled. *)
Definition abv_gate (abv : json) (cat : string) : result bool :=
  match py_float abv with
  | Ok x => Ok (negb (le_zero x))
  | Raise ValueError | Raise TypeError =>
      Ok (existsb (fun bc => str_in bc cat) BEER_CATS)
  | Raise e => Raise e
  end.

Definition is_beer (drink : json) : result bool :=
  c <- get_default drink "cat" (JStr "") ;;
  cat <- py_lower c ;;
  abv <- get_default drink "abv" (JStr "") ;;
  pass <- abv_gate abv cat ;;
  if negb pass then Ok false
  else
    n <- get_default drink "name" (JStr "") ;;
    name <- py_lower n ;;
    if existsb (fun e => str_in e name) exclude then Ok false else Ok true.

(** ** Arithmetic of the statistics *)

Definition Qlt_b (x y : Q) : bool := negb (Qle_bool y x).

Definition num_of (v : json) : result Q :=
  match as_num v with
  | Some q => Ok q
  | None => Raise TypeError
  end.

(** The operands of [sum(l)]: the elements are added to [0] from left to
    right, and the first one that is not a number raises [TypeError]. *)
Definition numbers (l : list json) : result (list Q) := mapM num_of l.

Definition Qsum (l : list Q) : Q := fold_left Qplus l 0%Q.

(** [a / n] for a count [n], as the exact quotient. *)
Definition py_div (a : Q) (n : nat) : result Q :=
  match n with
  | O => Raise ZeroDivisionError
  | S _ => Ok (a / inject_Z (Z.of_nat n))%Q
  end.

(** Nearest integer, ties to the even one. *)
Definition round_half_even (x : Q) : Z :=
  let f := Qfloor x in
  match (x - inject_Z f ?= 1 # 2)%Q with
  | Lt => f
  | Gt => (f + 1)%Z
  | Eq => if Z.even f then f else (f + 1)%Z
  end.

(** [round(x, 2)], on the exact value. *)
Definition round2 (x : Q) : Q := Qred (round_half_even (x * 100) # 100).

(** [min] and [max] keep the first of several equal extremes. *)
Fixpoint min_from (m : Q) (l : list Q) : Q :=
  match l with
  | [] => m
  | x :: l' => min_from (if Qlt_b x m then x else m) l'
  end.

Fixpoint max_from (m : Q) (l : list Q) : Q :=
  match l with
  | [] => m
  | x :: l' => max_from (if Qlt_b m x then x else m) l'
  end.

Definition py_min (l : list Q) : result Q :=
  match l with
  | [] => Raise ValueError
  | x :: l' => Ok (min_from x l')
  end.

Definition py_max (l : list Q) : result Q :=
  match l with
  | [] => Raise ValueError
  | x :: l' => Ok (max_from x l')
  end.

(** [list.sort(key=...)]: a stable sort, ascending in the key. *)
Section Sorting.
Context {A : Type} (key : A -> Q).

Fixpoint insert_by (x : A) (l : list A) : list A :=
  match l with
  | [] => [x]
  | y :: l' =>
      if Qle_bool (key x) (key y) then x :: l else y :: insert_by x l'
  end.

Fixpoint sort_by (l : list A) : list A :=
  match l with
  | [] => []
  | x :: l' => insert_by x (sort_by l')
  end.

(** The order of the keys. *)
Definition key_le (a b : A) : Prop := (key a <= key b)%Q.
End Sorting.

(** ** The reduction of one pub *)

(** [[elt(x) for x in l if cond(x)]], one element after the other. *)
Fixpoint comprehension {A B : Type}
    (cond : A -> result bool) (elt : A -> result B) (l : list A)
  : result (list B) :=
  match l with
  | [] => Ok []
  | a :: l' =>
      c <- cond a ;;
      if c then b <- elt a ;; r <- comprehension cond elt l' ;; Ok (b :: r)
      else comprehension cond elt l'
  end.

(** [d.get('pint') and not d.get('oos')] *)
Definition in_stock_priced (d : json) : result bool :=
  p <- get d "pint" ;;
  if truthy p then o <- get d "oos" ;; Ok (negb (truthy o)) else Ok false.

(** [[d['pint'] for d in beers if d.get('pint') and not d.get('oos')]] *)
Definition select_prices (beers : list json) : result (list json) :=
  comprehension in_stock_priced (fun d => subscript d "pint") beers.

(** [v == c] for a number [c]. *)
Definition num_eq (v : json) (c : Q) : bool :=
  match as_num v with
  | Some q => Qeq_bool q c
  | None => false
  end.

(** [next((d['name'] for d in beers
          if d['pint'] == cheapest and not d.get('oos')), None)] *)
Fixpoint first_name (cheapest : Q) (beers : list json) : result json :=
  match beers with
  | [] => Ok JNull
  | d :: rest =>
      p <- subscript d "pint" ;;
      if num_eq p cheapest then
        o <- get d "oos" ;;
        if negb (truthy o) then subscript d "name"
        else first_name cheapest rest
      else first_name cheapest rest
  end.

(** An entry of [drink_list]: the dict with keys [name], [price], [abv].
    The price is kept by its value. *)
Record simple_drink : Type := {
  sd_name : json;
  sd_price : Q;
  sd_abv : json
}.

(** Members of the set [seen]: tuples [(name, pint)]. *)
Definition key : Type := (json * Q)%type.

Definition hashable (v : json) : bool :=
  match v with
  | JList _ | JDict _ => false
  | _ => true
  end.

(** [a == b] on hashable values. *)
Definition scalar_eqb (a b : json) : bool :=
  match a, b with
  | JNull, JNull => true
  | JStr s, JStr t => String.eqb s t
  | _, _ =>
      match as_num a, as_num b with
      | Some x, Some y => Qeq_bool x y
      | _, _ => false
      end
  end.

Definition key_eqb (a b : key) : bool :=
  (scalar_eqb (fst a) (fst b) && Qeq_bool (snd a) (snd b))%bool.

Definition mem_key (k : key) (seen : list key) : bool :=
  existsb (key_eqb k) seen.

(** The loop that fills [drink_list] (before it is sorted).  Hashing the
    key raises [TypeError] for a name that is a list or a dict; the price
    of a selected drink is a number by then, [sum(prices)] having passed. *)
Fixpoint dedup_loop (beers : list json) (seen : list key)
    (drink_list : list simple_drink) : result (list simple_drink) :=
  match beers with
  | [] => Ok drink_list
  | d :: rest =>
      c <- in_stock_priced d ;;
      if c then
        n <- subscript d "name" ;;
        pj <- subscript d "pint" ;;
        p <- num_of pj ;;
        if hashable n then
          if negb (mem_key (n, p) seen) then
            abv <- get_default d "abv" (JStr "") ;;
            dedup_loop rest ((n, p) :: seen)
              (drink_list ++ [{| sd_name := n; sd_price := p; sd_abv := abv |}])
          else dedup_loop rest seen drink_list
        else Raise TypeError
      else dedup_loop rest seen drink_list
  end.

Definition dedup (beers : list json) : result (list simple_drink) :=
  dedup_loop beers [] [].

(** An entry of [clean_pubs]. *)
Record clean_pub : Type := {
  cp_name : json;
  cp_ref : json;
  cp_town : json;
  cp_county : json;
  cp_postcode : json;
  cp_lat : json;
  cp_lon : json;
  cp_avg : Q;
  cp_min : Q;
  cp_max : Q;
  cp_cheapest : json;
  cp_beers : nat;
  cp_drinks : list simple_drink
}.

(** The body of the loop over [pubs] in [main], from the test of [beers]
    on: [None] stands for [continue], [Some] for the dict appended to
    [clean_pubs]. *)
Definition summarise (pub : json) (beers : list json) : result (option clean_pub) :=
  match beers with
  | [] => Ok None
  | _ :: _ =>
      prices <- select_prices beers ;;
      match prices with
      | [] => Ok None
      | _ :: _ =>
          nums <- numbers prices ;;
          mean <- py_div (Qsum nums) (List.length prices) ;;
          let avg := round2 mean in
          cheapest <- py_min nums ;;
          most_exp <- py_max nums ;;
          cheapest_name <- first_name cheapest beers ;;
          unsorted <- dedup beers ;;
          let drink_list := sort_by sd_price unsorted in
          name <- subscript pub "name" ;;
          ref <- get pub "ref" ;;
          town <- subscript pub "town" ;;
          county <- get_default pub "county" (JStr "") ;;
          postcode <- get_default pub "postcode" (JStr "") ;;
          lat <- get pub "lat" ;;
          lon <- get pub "lon" ;;
          Ok (Some {| cp_name := name; cp_ref := ref; cp_town := town;
                      cp_county := county; cp_postcode := postcode;
                      cp_lat := lat; cp_lon := lon;
                      cp_avg := avg; cp_min := cheapest; cp_max := most_exp;
                      cp_cheapest := cheapest_name;
                      cp_beers := List.length drink_list;
                      cp_drinks := drink_list |})
      end
  end.

(** [beers = [d for d in pub.get('drinks', []) if is_beer(d)]] *)
Definition beers_of (pub : json) : result (list json) :=
  ds <- get_default pub "drinks" (JList []) ;;
  dl <- iterate ds ;;
  comprehension is_beer Ok dl.

(** The whole body of the loop over [pubs]. *)
Definition reduce_venue (pub : json) : result (option clean_pub) :=
  beers <- beers_of pub ;;
  summarise pub beers.

(** ** Regions *)

Definition REGION_MAP : list (string * string) :=
  [("Camden", "London"); ("City of London", "London");
   ("Farringdon", "London"); ("Hackney", "London"); ("Hammersmith", "London");
   ("Hammersmith & Fulham", "London"); ("Islington", "London");
   ("Lambeth", "London"); ("Lewisham", "London"); ("Southwark", "London");
   ("Tower Hamlets", "London"); ("Wandsworth", "London");
   ("Westminster", "London"); ("London", "London"); ("Middlesex", "London");
   ("Hillingdon", "London"); ("Hounslow", "London"); ("Brent", "London");
   ("Barnet", "London"); ("Enfield", "London"); ("Haringey", "London");
   ("Waltham Forest", "London"); ("Redbridge", "London");
   ("Newham", "London"); ("Barking", "London");
   ("Barking and Dagenham", "London"); ("Havering", "London");
   ("Bexley", "London"); ("Bromley", "London"); ("Croydon", "London");
   ("Sutton", "London"); ("Merton", "London"); ("Kingston", "London");
   ("Kingston upon Thames", "London"); ("Richmond", "London");
   ("Richmond upon Thames", "London"); ("Ealing", "London");
   ("Greenwich", "London"); ("Woolwich", "London"); ("Harrow", "London");
   ("Kensington and Chelsea", "London"); ("Kensington", "London");
   ("Chelsea", "London"); ("Edinburgh", "Scotland"); ("Glasgow", "Scotland");
   ("Lanarkshire", "Scotland"); ("South Lanarkshire", "Scotland");
   ("North Lanarkshire", "Scotland"); ("Fife", "Scotland");
   ("Renfrewshire", "Scotland"); ("East Renfrewshire", "Scotland");
   ("Ayrshire", "Scotland"); ("North Ayrshire", "Scotland");
   ("East Ayrshire", "Scotland"); ("South Ayrshire", "Scotland");
   ("Inverness-shire", "Scotland"); ("Highland", "Scotland");
   ("Highlands", "Scotland"); ("Angus", "Scotland");
   ("Aberdeenshire", "Scotland"); ("Aberdeen", "Scotland");
   ("Perth and Kinross", "Scotland"); ("Perth", "Scotland");
   ("Dundee", "Scotland"); ("Stirling", "Scotland");
   ("Dunbartonshire", "Scotland"); ("West Dunbartonshire", "Scotland");
   ("East Dunbartonshire", "Scotland"); ("Borders", "Scotland");
   ("Scottish Borders", "Scotland"); ("Falkirk", "Scotland");
   ("Clackmannanshire", "Scotland"); ("Midlothian", "Scotland");
   ("East Lothian", "Scotland"); ("West Lothian", "Scotland");
   ("Glamorgan", "Wales"); ("Vale of Glamorgan", "Wales"); ("Gwent", "Wales");
   ("Dyfed", "Wales"); ("Gwynedd", "Wales"); ("Clwyd", "Wales");
   ("Powys", "Wales"); ("Cardiff", "Wales"); ("Swansea", "Wales");
   ("Carmarthenshire", "Wales"); ("Pembrokeshire", "Wales");
   ("Ceredigion", "Wales"); ("Wrexham", "Wales"); ("Conwy", "Wales");
   ("Bridgend", "Wales"); ("Blaenau Gwent", "Wales"); ("Caerphilly", "Wales");
   ("Monmouthshire", "Wales"); ("Rhondda Cynon Taf", "Wales");
   ("Neath Port Talbot", "Wales"); ("Torfaen", "Wales"); ("Newport", "Wales");
   ("Flintshire", "Wales"); ("Denbighshire", "Wales"); ("Anglesey", "Wales");
   ("Isle of Anglesey", "Wales"); ("Merthyr Tydfil", "Wales");
   ("County Antrim", "Northern Ireland"); ("County Down", "Northern Ireland");
   ("County Armagh", "Northern Ireland");
   ("County Tyrone", "Northern Ireland");
   ("County Londonderry", "Northern Ireland");
   ("County Fermanagh", "Northern Ireland"); ("Belfast", "Northern Ireland");
   ("Antrim", "Northern Ireland"); ("County Dublin", "Ireland");
   ("Dublin", "Ireland"); ("County Cork", "Ireland");
   ("County Galway", "Ireland"); ("County Limerick", "Ireland");
   ("County Waterford", "Ireland"); ("County Wexford", "Ireland");
   ("County Kildare", "Ireland"); ("Kent", "South East");
   ("Surrey", "South East"); ("Sussex", "South East");
   ("East Sussex", "South East"); ("West Sussex", "South East");
   ("Hampshire", "South East"); ("Berkshire", "South East");
   ("Oxfordshire", "South East"); ("Buckinghamshire", "South East");
   ("Hertfordshire", "South East"); ("Essex", "South East");
   ("Bedfordshire", "South East"); ("Devon", "South West");
   ("Cornwall", "South West"); ("Somerset", "South West");
   ("Dorset", "South West"); ("Wiltshire", "South West");
   ("Gloucestershire", "South West"); ("Bristol", "South West");
   ("Bath", "South West"); ("Bath and North East Somerset", "South West");
   ("Norfolk", "East of England"); ("Suffolk", "East of England");
   ("Cambridgeshire", "East of England");
   ("Northamptonshire", "East of England"); ("West Midlands", "Midlands");
   ("Warwickshire", "Midlands"); ("Staffordshire", "Midlands");
   ("Worcestershire", "Midlands"); ("Shropshire", "Midlands");
   ("Herefordshire", "Midlands"); ("Derbyshire", "Midlands");
   ("Nottinghamshire", "Midlands"); ("Leicestershire", "Midlands");
   ("Lincolnshire", "Midlands"); ("Rutland", "Midlands");
   ("Birmingham", "Midlands"); ("Coventry", "Midlands");
   ("Solihull", "Midlands"); ("Greater Manchester", "North West");
   ("Lancashire", "North West"); ("Merseyside", "North West");
   ("Cheshire", "North West"); ("Cumbria", "North West");
   ("Manchester", "North West"); ("Liverpool", "North West");
   ("Stockport", "North West"); ("Wigan", "North West");
   ("Bolton", "North West"); ("Tyne and Wear", "North East");
   ("County Durham", "North East"); ("Northumberland", "North East");
   ("Cleveland", "North East"); ("Newcastle upon Tyne", "North East");
   ("Sunderland", "North East"); ("Gateshead", "North East");
   ("Durham", "North East"); ("Teesside", "North East");
   ("Middlesbrough", "North East"); ("South Yorkshire", "Yorkshire");
   ("West Yorkshire", "Yorkshire"); ("North Yorkshire", "Yorkshire");
   ("East Riding of Yorkshire", "Yorkshire"); ("Sheffield", "Yorkshire");
   ("Leeds", "Yorkshire"); ("York", "Yorkshire"); ("Bradford", "Yorkshire");
   ("Hull", "Yorkshire"); ("Kingston Upon Hull", "Yorkshire");
   ("Wakefield", "Yorkshire"); ("Calderdale", "Yorkshire");
   ("Barnsley", "Yorkshire"); ("Doncaster", "Yorkshire");
   ("Rotherham", "Yorkshire"); ("Kirklees", "Yorkshire");
   ("Argyll and Bute", "Scotland"); ("Dundee City", "Scotland");
   ("Dumfries and Galloway", "Scotland"); ("Moray", "Scotland");
   ("Inverclyde", "Scotland"); ("Stockton-on-Tees", "North East");
   ("Rhondda Cynon Taff", "Wales"); ("Telford & Wrekin", "Midlands");
   ("South Gloucestershire", "South West"); ("Isle of Wight", "South East");
   ("Greater Manchester ", "North West")].

(** [county = p.get('county', '').strip()] and
    [region = REGION_MAP.get(county, county)] *)
Definition region_of (county : json) : result string :=
  c <- py_strip county ;;
  Ok (match assoc c REGION_MAP with Some r => r | None => c end).

(** [regions.setdefault(region, []).append(a)] on a dict in insertion
    order. *)
Fixpoint add_to_group (region : string) (a : Q) (regions : list (string * list Q))
  : list (string * list Q) :=
  match regions with
  | [] => [(region, [a])]
  | (r, l) :: rest =>
      if String.eqb region r then (r, l ++ [a]) :: rest
      else (r, l) :: add_to_group region a rest
  end.

Fixpoint group_regions (pubs : list clean_pub) (regions : list (string * list Q))
  : result (list (string * list Q)) :=
  match pubs with
  | [] => Ok regions
  | p :: rest =>
      region <- region_of (cp_county p) ;;
      group_regions rest (add_to_group region (cp_avg p) regions)
  end.

(** An entry of [regional]. *)
Record region_stat : Type := {
  rs_name : string;
  rs_avg : Q;
  rs_pubs : nat;
  rs_min : Q;
  rs_max : Q
}.

Definition stat_of (name : string) (prices : list Q) : result region_stat :=
  mean <- py_div (Qsum prices) (List.length prices) ;;
  lo <- py_min prices ;;
  hi <- py_max prices ;;
  Ok {| rs_name := name; rs_avg := round2 mean; rs_pubs := List.length prices;
        rs_min := round2 lo; rs_max := round2 hi |}.

(** The loop over [regions.items()] and the final sort on [-avg]. *)
Definition regional_of (regions : list (string * list Q)) : result (list region_stat) :=
  l <- comprehension (fun g => Ok (2 <=? List.length (snd g))%nat)
         (fun g => stat_of (fst g) (snd g)) regions ;;
  Ok (sort_by (fun r => - rs_avg r)%Q l).

Definition regional_stats (clean_pubs : list clean_pub) : result (list region_stat) :=
  regions <- group_regions clean_pubs [] ;;
  regional_of regions.

(** ** The report *)

Definition JNat (n : nat) : json := JNum (inject_Z (Z.of_nat n)).

Definition region_json (r : region_stat) : json :=
  JDict [("name", JStr (rs_name r)); ("avg", JNum (rs_avg r));
         ("pubs", JNat (rs_pubs r)); ("min", JNum (rs_min r));
         ("max", JNum (rs_max r))].

Definition cheapest_entry (p : clean_pub) : json :=
  JDict [("name", cp_name p); ("town", cp_town p); ("postcode", cp_postcode p);
         ("avg", JNum (cp_avg p)); ("min", JNum (cp_min p));
         ("cheapest", cp_cheapest p); ("lat", cp_lat p); ("lon", cp_lon p)].

Definition priciest_entry (p : clean_pub) : json :=
  JDict [("name", cp_name p); ("town", cp_town p); ("postcode", cp_postcode p);
         ("avg", JNum (cp_avg p)); ("max", JNum (cp_max p));
         ("lat", cp_lat p); ("lon", cp_lon p)].

Definition drink_json (d : simple_drink) : json :=
  JDict [("name", sd_name d); ("price", JNum (sd_price d)); ("abv", sd_abv d)].

Definition pub_entry (p : clean_pub) : json :=
  JDict [("name", cp_name p); ("town", cp_town p); ("county", cp_county p);
         ("postcode", cp_postcode p); ("lat", cp_lat p); ("lon", cp_lon p);
         ("avg", JNum (cp_avg p)); ("min", JNum (cp_min p));
         ("max", JNum (cp_max p)); ("cheapest", cp_cheapest p);
         ("beers", JNat (cp_beers p));
         ("drinks", JList (map drink_json (firstn 10 (cp_drinks p))))].

(** [l[-n:]] *)
Definition last_n {A : Type} (n : nat) (l : list A) : list A :=
  skipn (List.length l - n) l.

(** [clean_pubs[:20]] projected. *)
Definition cheapest_board (clean_pubs : list clean_pub) : list json :=
  map cheapest_entry (firstn 20 clean_pubs).

(** [clean_pubs[-20:][::-1]] projected. *)
Definition priciest_board (clean_pubs : list clean_pub) : list json :=
  map priciest_entry (rev (last_n 20 clean_pubs)).

Fixpoint somes {A : Type} (l : list (option A)) : list A :=
  match l with
  | [] => []
  | Some a :: l' => a :: somes l'
  | None :: l' => somes l'
  end.

(** [clean_pubs] once the loop over the pubs has ended, in the order of
    the pubs. *)
Definition reduce_all (raw : json) : result (list clean_pub) :=
  pubs <- get_default raw "pubs" (JList []) ;;
  l <- iterate pubs ;;
  rs <- mapM reduce_venue l ;;
  Ok (somes rs).

(** [main] up to the dict [output]. *)
Definition build (raw : json) : result json :=
  unsorted <- reduce_all raw ;;
  let clean_pubs := sort_by cp_avg unsorted in
  let all_avgs := map cp_avg clean_pubs in
  let all_mins := map cp_min clean_pubs in
  mean <- py_div (Qsum all_avgs) (List.length all_avgs) ;;
  let national_avg := round2 mean in
  regional <- regional_stats clean_pubs ;;
  meta <- get_default raw "meta" (JDict []) ;;
  fetch_date <- get_default meta "fetchDate" (JStr "") ;;
  cheapest_pint <- py_min all_mins ;;
  most_expensive <- py_max (map cp_max clean_pubs) ;;
  Ok (JDict
        [("meta", JDict
            [("source", JStr "Wetherspoons JDW Apps API");
             ("fetchDate", fetch_date);
             ("totalPubs", JNat (List.length clean_pubs));
             ("totalBeers", JNat (list_sum (map cp_beers clean_pubs)));
             ("avgPint", JNum national_avg);
             ("cheapestPint", JNum cheapest_pint);
             ("mostExpensivePint", JNum most_expensive)]);
         ("regional", JList (map region_json regional));
         ("cheapest", JList (cheapest_board clean_pubs));
         ("priciest", JList (priciest_board clean_pubs));
         ("pubs", JList (map pub_entry clean_pubs))]).

(** The file system as far as [main] touches it: the content of the
    output file, if it exists. *)
Definition files : Type := option json.

(** [main] on the snapshot [raw]: the output file is opened and written
    once [output] has been built. *)
Definition main (raw : json) (fs : files) : files * result unit :=
  match build raw with
  | Ok output => (Some output, Ok tt)
  | Raise e => (fs, Raise e)
  end.

(** ** Notions used to state the properties *)

(** The field [k] of the dict [d] is a string, or [d] has no such field. *)
Definition text_or_absent (d : json) (k : string) : Prop :=
  exists s, get_default d k (JStr "") = Ok (JStr s).

(** Pairwise distinct strings. *)
Fixpoint distinct (l : list string) : bool :=
  match l with
  | [] => true
  | k :: l' => (negb (existsb (String.eqb k) l') && distinct l')%bool
  end.

(** A snapshot without pubs, and one whose only pub sells no beer. *)
Definition raw_no_pubs : json := JDict [("pubs", JList [])].

Definition raw_no_beer : json :=
  JDict [("pubs", JList
    [JDict [("name", JStr "The Moon Under Water"); ("town", JStr "Leeds");
            ("drinks", JList
               [JDict [("name", JStr "Pepsi Max"); ("cat", JStr "soft");
                       ("abv", JStr ""); ("pint", JNum 2.00)]])]])].

(** A pub with its required fields, whose first beer has no [pint] field. *)
Definition beers_missing_price : list json :=
  [JDict [("name", JStr "Mild"); ("cat", JStr "ale")];
   JDict [("name", JStr "Bitter"); ("cat", JStr "ale"); ("pint", JNum 3.5)]].

Definition pub_missing_price : json :=
  JDict [("name", JStr "The Moon Under Water"); ("town", JStr "Leeds");
         ("drinks", JList beers_missing_price)].

(** An entry of [drink_list] read back as a drink on sale: the price
    returns to the field [pint], and no [oos] flag is set. *)
Definition relist (d : simple_drink) : json :=
  JDict [("name", sd_name d); ("pint", JNum (sd_price d)); ("abv", sd_abv d)].

Definition key_of (d : simple_drink) : key := (sd_name d, sd_price d).

(** [fresh seen l]: the entries of [l] are priced, have hashable names,
    and their keys differ from one another and from the keys in [seen]. *)
Inductive fresh : list key -> list simple_drink -> Prop :=
  | fresh_nil (seen : list key) : fresh seen []
  | fresh_cons (seen : list key) (d : simple_drink) (l : list simple_drink) :
      hashable (sd_name d) = true ->
      Qzero_b (sd_price d) = false ->
      mem_key (key_of d) seen = false ->
      fresh (key_of d :: seen) l ->
      fresh seen (d :: l).

(** The [pint] field of the drink holds zero or [null]. *)
Definition zero_priced (d : json) : Prop :=
  exists kv, d = JDict kv /\
    (assoc "pint" kv = Some JNull \/
     exists q, assoc "pint" kv = Some (JNum q) /\ (q == 0)%Q).

(** The drink has no price: the field [pint] is missing, or it holds zero
    or [null]. *)
Definition unpriced (d : json) : Prop :=
  zero_priced d \/ exists kv, d = JDict kv /\ assoc "pint" kv = None.

(** A pub dict whose first field is the list of its drinks. *)
Definition pub_with (drinks : list json) (fields : list (string * json)) : json :=
  JDict (("drinks", JList drinks) :: fields).

(** Two beers for the examples: one on sale at 3.49, one priced at zero. *)
Definition ruddles : json :=
  JDict [("name", JStr "Ruddles Best"); ("cat", JStr "ale");
         ("abv", JStr "3.7"); ("pint", JNum 3.49)].

Definition festival_ale : json :=
  JDict [("name", JStr "Festival Ale"); ("cat", JStr "ale");
         ("abv", JStr "4.2"); ("pint", JNum 0)].

Definition moon_fields : list (string * json) :=
  [("name", JStr "The Moon Under Water"); ("town", JStr "Leeds");
   ("county", JStr "West Yorkshire")].


(** The field names of a dict. *)
Definition keys_of (v : json) : list string :=
  match v with
  | JDict kv => map fst kv
  | _ => []
  end.

Definition swap_min_max (k : string) : string :=
  if String.eqb k "min" then "max" else k.

(** A snapshot with one pub. *)
Definition raw_one_pub : json :=
  JDict [("pubs", JList [pub_with [ruddles] moon_fields])].

(** The pubs of a region, and their averages in the order of the pubs. *)
Definition in_region (name : string) (p : clean_pub) : bool :=
  match region_of (cp_county p) with
  | Ok r => String.eqb r name
  | Raise _ => false
  end.

Definition member_avgs (name : string) (pubs : list clean_pub) : list Q :=
  map cp_avg (filter (in_region name) pubs).

Definition county_is_text (p : clean_pub) : Prop :=
  exists s, cp_county p = JStr s.

(** The list a region name stands for in [regions], empty when the name
    is no key. *)
Definition group (name : string) (regions : list (string * list Q)) : list Q :=
  match assoc name regions with
  | Some l => l
  | None => []
  end.

(** [r] is the entry of a region [name] that has the member averages [m],
    as far as its name and its count go. *)
Definition is_stat (name : string) (m : list Q) (r : region_stat) : Prop :=
  rs_name r = name /\ rs_pubs r = List.length m.

(** Reduced pubs for the examples: two in one region, one alone. *)
Definition pub_in (county : string) (avg : Q) : clean_pub :=
  {| cp_name := JStr "The Moon Under Water"; cp_ref := JNull;
     cp_town := JStr "Leeds"; cp_county := JStr county;
     cp_postcode := JStr ""; cp_lat := JNull; cp_lon := JNull;
     cp_avg := avg; cp_min := avg; cp_max := avg;
     cp_cheapest := JStr "Ruddles Best"; cp_beers := 1;
     cp_drinks := [{| sd_name := JStr "Ruddles Best"; sd_price := avg;
                      sd_abv := JStr "3.7" |}] |}.

Definition two_pubs_a : clean_pub := pub_in "Testland2" 3.00.
Definition two_pubs_b : clean_pub := pub_in " Testland2" 4.00.
Definition lone_pub : clean_pub := pub_in "Testland" 2.50.

(** The value is not a string. *)
Definition not_text (v : json) : Prop := forall s, v <> JStr s.

(** No word of [exclude] occurs in the lower-cased name. *)
Definition no_excluded_word (n : string) : Prop :=
  forall e, In e exclude ->
    ~ exists pre post, lower n = (pre ++ e ++ post)%string.

(** A word of [BEER_CATS] occurs in the lower-cased category. *)
Definition beer_category (c : string) : Prop :=
  exists bc pre post, In bc BEER_CATS /\ lower c = (pre ++ bc ++ post)%string.

(** The entry that the de-duplication loop makes of the drink [d]. *)
Definition entry_of (d : json) (e : simple_drink) : Prop :=
  in_stock_priced d = Ok true /\
  subscript d "name" = Ok (sd_name e) /\
  (exists pj, subscript d "pint" = Ok pj /\ num_of pj = Ok (sd_price e)) /\
  get_default d "abv" (JStr "") = Ok (sd_abv e).

(** The test of the search for the cheapest drink's name:
    [d['pint'] == cheapest and not d.get('oos')]. *)
Definition is_cheapest (cheapest : Q) (d : json) : Prop :=
  exists pj o,
    subscript d "pint" = Ok pj /\ num_eq pj cheapest = true /\
    get d "oos" = Ok o /\ truthy o = false.




(** A snapshot whose first field is the list of its pubs. *)
Definition raw_with (pubs : list json) (fields : list (string * json)) : json :=
  JDict (("pubs", JList pubs) :: fields).

(** The field [k] of the section [meta] of a report. *)
Definition meta_field (out : json) (k : string) : result json :=
  m <- subscript out "meta" ;; subscript m k.

(** The outcomes of [float(abv)] from which [is_beer] goes on: a float,
    or one of the two exceptions that its [except] clause lists. *)
Definition handled (r : result xfloat) : Prop :=
  (exists x, r = Ok x) \/ r = Raise ValueError \/ r = Raise TypeError.

(** A soft drink with a given [abv] field. *)
Definition pepsi_with (abv : json) : json :=
  JDict [("name", JStr "Pepsi Max"); ("cat", JStr "Soft drinks"); ("abv", abv)].

(** [l] is made of characters of [table] only. *)
Definition blank (table : list (list ascii)) (l : list ascii) : Prop :=
  exists ws, Forall (fun w => In w table) ws /\ l = List.concat ws.

(** The no-break space U+00A0. *)
Definition nbsp : string := string_of_list_ascii (bytes [194; 160]%nat).

(** * Properties *)

(** One step of a computation that is known to succeed: the first
    operation is split into its two outcomes and the failure is ruled
    out. *)
Ltac bind_ok :=
  match goal with
  | |- context [bind ?m _] => destruct m; cbn [bind]; [|discriminate]
  end.

(** ** Strings *)

Lemma prefix_app (sub s : string) :
  String.prefix sub s = true <-> exists post, s = (sub ++ post)%string.
Proof.
  revert s; induction sub as [|a sub IH]; intros s; simpl.
  - destruct s; split; intros; try reflexivity; eexists; reflexivity.
  - destruct s as [|b s].
    + split; [discriminate | intros [post H]; discriminate].
    + cbn [String.prefix]; destruct (ascii_dec a b) as [->|Hab].
      * rewrite IH; split; intros [post H]; exists post.
        -- now rewrite H.
        -- now inversion H.
      * split; [discriminate | intros [post H]; inversion H; congruence].
Qed.

(** [str_in] decides whether [sub] occurs in [s] as a contiguous block. *)
Lemma str_in_spec (sub s : string) :
  str_in sub s = true <-> exists pre post, s = (pre ++ sub ++ post)%string.
Proof.
  induction s as [|c s IH].
  - cbn [str_in]; rewrite orb_false_r, prefix_app; split.
    + intros [post H]; exists "", post; exact H.
    + intros [pre [post H]]; destruct pre; [now exists post | discriminate].
  - cbn [str_in]; rewrite orb_true_iff, prefix_app, IH; split.
    + intros [[post H] | [pre [post H]]].
      * exists "", post; exact H.
      * exists (String c pre), post; simpl; now rewrite H.
    + intros [pre [post H]]; destruct pre as [|c' pre].
      * left; now exists post.
      * right; exists pre, post; now inversion H.
Qed.

(** ** The classifier *)

Lemma abv_gate_handled (abv : json) (cat : string) :
  handled (py_float abv) -> exists b, abv_gate abv cat = Ok b.
Proof.
  unfold abv_gate; intros [[x ->] | [-> | ->]]; eauto.
Qed.

Lemma text_or_absent_dict (d : json) (k : string) :
  text_or_absent d k -> exists kv, d = JDict kv.
Proof.
  intros [s H]; destruct d; try discriminate; eauto.
Qed.

(** C4 fails on the code.  The drink is a soft drink by its name, and its
    [abv] is the int 10^400.  [float] of an int beyond the range of the
    floats raises [OverflowError], which the [except] clause of [is_beer]
    does not list: the call fails before the name is looked at.  With the
    same number written as a string, [float] gives infinity and the drink
    is rejected for its name. *)
Theorem is_beer_abv_overflow :
  is_beer (pepsi_with (JNum (inject_Z (10 ^ 400)))) = Raise OverflowError /\
  is_beer (pepsi_with (JStr "1e400")) = Ok false.
Proof. split; vm_compute; reflexivity. Qed.

(** A drink whose lower-cased name contains one of the words of [exclude]
    is rejected, whatever its category and whatever [float(abv)] gives: a
    float of any sign, or one of the two exceptions that [is_beer]
    catches. *)
Theorem is_beer_excluded_name (d abv : json) (n e : string) :
  text_or_absent d "cat" ->
  get_default d "abv" (JStr "") = Ok abv ->
  handled (py_float abv) ->
  get_default d "name" (JStr "") = Ok (JStr n) ->
  In e exclude ->
  (exists pre post, lower n = (pre ++ e ++ post)%string) ->
  is_beer d = Ok false.
Proof.
  intros [c Hc] Ha Hf Hn He Hsub.
  unfold is_beer; rewrite Hc, Ha; cbn [bind py_lower].
  destruct (abv_gate_handled abv (lower c) Hf) as [b ->].
  cbn [bind]; destruct b; cbn [negb]; [|reflexivity].
  rewrite Hn; cbn [bind py_lower].
  assert (Hx : existsb (fun e0 => str_in e0 (lower n)) exclude = true).
  { apply existsb_exists; exists e; split; [exact He|].
    now apply str_in_spec. }
  now rewrite Hx.
Qed.

Lemma is_beer_excluded_name_witness :
  is_beer (JDict [("name", JStr "Ginger Beer"); ("cat", JStr "Craft beer");
                  ("abv", JNum 4.0)]) = Ok false.
Proof.
  apply (is_beer_excluded_name _ (JNum 4.0) "Ginger Beer" "ginger").
  - exists "Craft beer"; reflexivity.
  - reflexivity.
  - left; eexists; reflexivity.
  - reflexivity.
  - simpl; tauto.
  - exists "", " beer"; reflexivity.
Defined.

(** C5.  A drink whose [abv] converts to a float that is at most zero is
    rejected: [is_beer] returns [False] whatever the category says. *)
Theorem is_beer_abv_not_positive (d abv : json) (x : xfloat) :
  text_or_absent d "cat" ->
  get_default d "abv" (JStr "") = Ok abv ->
  py_float abv = Ok x ->
  le_zero x = true ->
  is_beer d = Ok false.
Proof.
  intros [c Hc] Ha Hx Hle.
  unfold is_beer; rewrite Hc, Ha; cbn [bind py_lower].
  unfold abv_gate; rewrite Hx, Hle; reflexivity.
Qed.

Lemma is_beer_abv_not_positive_witness :
  is_beer (JDict [("name", JStr "Stella"); ("cat", JStr "World Beer");
                  ("abv", JStr "0.0")]) = Ok false.
Proof.
  apply (is_beer_abv_not_positive _ (JStr "0.0") (Fin 0)).
  - exists "World Beer"; reflexivity.
  - reflexivity.
  - vm_compute; reflexivity.
  - reflexivity.
Defined.

(** ** The region mapper *)

Lemma drop_prefix_spec (w s r : list ascii) :
  drop_prefix w s = Some r <-> s = w ++ r.
Proof.
  revert s; induction w as [|a w IH]; intros s; cbn [drop_prefix app].
  - split; intros H; [now inversion H | now subst].
  - destruct s as [|c s]; [split; discriminate|].
    destruct (Ascii.eqb_spec a c) as [->|Hne].
    + rewrite IH; split; intros H; [now subst | now inversion H].
    + split; [discriminate | intros H; inversion H; congruence].
Qed.

Lemma drop_word_Some (table : list (list ascii)) (s r : list ascii) :
  drop_word table s = Some r -> exists w, In w table /\ s = w ++ r.
Proof.
  induction table as [|w table IH]; cbn [drop_word]; [discriminate|].
  destruct (drop_prefix w s) as [r'|] eqn:E.
  - intros H; inversion H; subst; exists w; split; [now left|].
    now apply drop_prefix_spec.
  - intros H; destruct (IH H) as [w' [Hw Hs]]; exists w'; split;
      [now right | exact Hs].
Qed.

Lemma drop_word_None (table : list (list ascii)) (s : list ascii) :
  drop_word table s = None <->
  forall w r, In w table -> s <> w ++ r.
Proof.
  induction table as [|w table IH]; cbn [drop_word].
  - split; [intros _ w r [] | reflexivity].
  - destruct (drop_prefix w s) as [r'|] eqn:E.
    + split; [discriminate|]; intros H; exfalso.
      apply (H w r' (or_introl eq_refl)); now apply drop_prefix_spec.
    + rewrite IH; split.
      * intros H w' r [<- | Hw]; [|now apply H].
        intros Hs; apply drop_prefix_spec in Hs; congruence.
      * intros H w' r Hw; apply H; now right.
Qed.

Lemma lstrip_n_fixed (table : list (list ascii)) (n : nat) (s : list ascii) :
  drop_word table s = None -> lstrip_n table n s = s.
Proof. intros H; destruct n; cbn [lstrip_n]; [reflexivity | now rewrite H]. Qed.

(** What is dropped at the front is made of characters of the table, and
    what is left does not start with one. *)
Lemma lstrip_n_spec (table : list (list ascii)) :
  Forall (fun w => w <> []) table ->
  forall n s, (List.length s <= n)%nat ->
    exists pre,
      blank table pre /\ s = pre ++ lstrip_n table n s /\
      drop_word table (lstrip_n table n s) = None.
Proof.
  intros Hne; induction n as [|n IH]; intros s Hlen; cbn [lstrip_n].
  - destruct s; [|cbn in Hlen; lia].
    exists []; split; [exists []; split; [constructor | reflexivity]|].
    split; [reflexivity|]; apply drop_word_None; intros w r Hw H.
    rewrite Forall_forall in Hne; apply (Hne w Hw).
    symmetry in H; now apply app_eq_nil in H.
  - destruct (drop_word table s) as [r|] eqn:E.
    + destruct (drop_word_Some _ _ _ E) as [w [Hw Hs]].
      assert (Hr : (List.length r <= n)%nat).
      { rewrite Forall_forall in Hne; specialize (Hne w Hw).
        subst s; rewrite length_app in Hlen.
        destruct w; [congruence | cbn in Hlen; lia]. }
      destruct (IH r Hr) as [pre [[ws [Hws Hpre]] [Hr' Hd]]].
      exists (w ++ pre); split; [|split].
      * exists (w :: ws); split; [now constructor | now rewrite Hpre].
      * now rewrite Hs, Hr' at 1; rewrite app_assoc.
      * exact Hd.
    + exists []; split; [exists []; split; [constructor | reflexivity]|].
      split; [reflexivity | exact E].
Qed.

Lemma rev_concat {A : Type} (l : list (list A)) :
  rev (List.concat l) = List.concat (map (@rev A) (rev l)).
Proof.
  induction l as [|x l IH]; [reflexivity|].
  cbn [List.concat rev]; rewrite rev_app_distr, IH, map_app, concat_app.
  cbn [map List.concat]; now rewrite app_nil_r.
Qed.

Lemma blank_rev (table : list (list ascii)) (l : list ascii) :
  blank (map (@rev ascii) table) l -> blank table (rev l).
Proof.
  intros [ws [Hws ->]]; exists (map (@rev ascii) (rev ws)); split.
  - apply Forall_forall; intros w Hw; apply in_map_iff in Hw.
    destruct Hw as [w' [<- Hw']]; apply in_rev in Hw'.
    rewrite Forall_forall in Hws; specialize (Hws w' Hw').
    apply in_map_iff in Hws; destruct Hws as [w0 [<- Hw0]].
    now rewrite rev_involutive.
  - apply rev_concat.
Qed.

Lemma words_rev_nonempty (table : list (list ascii)) :
  Forall (fun w => w <> []) table ->
  Forall (fun w => w <> []) (map (@rev ascii) table).
Proof.
  intros H; apply Forall_forall; intros w Hw; apply in_map_iff in Hw.
  destruct Hw as [w' [<- Hw']]; rewrite Forall_forall in H.
  intros E; apply (H w' Hw'); now rewrite <- (rev_involutive w'), E.
Qed.

(** [strip_by] removes characters of the table at both ends and nothing
    else, and leaves none at either end. *)
Lemma strip_by_spec (table : list (list ascii)) (s : list ascii) :
  Forall (fun w => w <> []) table ->
  (exists pre post,
      s = pre ++ strip_by table s ++ post /\
      blank table pre /\ blank table post) /\
  (forall w r, In w table -> strip_by table s <> w ++ r) /\
  (forall w r, In w table -> strip_by table s <> r ++ w).
Proof.
  intros Hne; unfold strip_by, lstrip.
  destruct (lstrip_n_spec table Hne (List.length s) s (Nat.le_refl _))
    as [pre [Hpre [Hs Hu]]].
  set (u := lstrip_n table (List.length s) s) in *.
  destruct (lstrip_n_spec _ (words_rev_nonempty table Hne)
              (List.length (rev u)) (rev u) (Nat.le_refl _))
    as [pre' [Hpre' [Hv Hd]]].
  set (v := lstrip_n (map (@rev ascii) table) (List.length (rev u)) (rev u)) in *.
  assert (Hut : u = rev v ++ rev pre').
  { rewrite <- rev_app_distr, <- Hv; symmetry; apply rev_involutive. }
  split; [|split].
  - exists pre, (rev pre'); split; [now rewrite <- Hut|].
    split; [exact Hpre | now apply blank_rev].
  - intros w r Hw E; apply (proj1 (drop_word_None table u) Hu w (r ++ rev pre') Hw).
    now rewrite Hut, E, app_assoc.
  - intros w r Hw E.
    apply (proj1 (drop_word_None _ v) Hd (rev w) (rev r)).
    + now apply in_map.
    + now rewrite <- rev_app_distr, <- E, rev_involutive.
Qed.

Lemma strip_by_idempotent (table : list (list ascii)) (s : list ascii) :
  Forall (fun w => w <> []) table ->
  strip_by table (strip_by table s) = strip_by table s.
Proof.
  intros Hne; destruct (strip_by_spec table s Hne) as [_ [Hhd Hlast]].
  set (t := strip_by table s) in *; unfold strip_by at 1, lstrip.
  rewrite (lstrip_n_fixed table _ t) by (now apply drop_word_None).
  rewrite lstrip_n_fixed; [apply rev_involutive|].
  apply drop_word_None; intros w r Hw E; apply in_map_iff in Hw.
  destruct Hw as [w' [<- Hw']]; apply (Hlast w' (rev r) Hw').
  now rewrite <- (rev_involutive t), E, rev_app_distr, rev_involutive.
Qed.

Lemma whitespace_nonempty : Forall (fun w => w <> []) whitespace.
Proof. repeat constructor; discriminate. Qed.

Lemma distinct_NoDup (l : list string) : distinct l = true -> NoDup l.
Proof.
  induction l as [|k l IH]; simpl; [constructor|].
  rewrite andb_true_iff, negb_true_iff; intros [Hk Hl].
  constructor; [|auto].
  intros Hin; assert (existsb (String.eqb k) l = true); [|congruence].
  apply existsb_exists; exists k; split; [exact Hin | apply String.eqb_refl].
Qed.

Lemma assoc_In {V : Type} (k : string) (v : V) (m : list (string * V)) :
  NoDup (map fst m) -> In (k, v) m -> assoc k m = Some v.
Proof.
  induction m as [|[k' v'] m IH]; simpl; [tauto|].
  intros Hnd [Heq | Hin]; inversion Hnd as [|? ? Hnot Hnd']; subst.
  - inversion Heq; subst; now rewrite String.eqb_refl.
  - destruct (String.eqb_spec k k') as [->|Hne]; [|auto].
    exfalso; apply Hnot; change k' with (fst (k', v)); now apply in_map.
Qed.

Lemma assoc_Some_In {V : Type} (k : string) (v : V) (m : list (string * V)) :
  assoc k m = Some v -> In (k, v) m.
Proof.
  induction m as [|[k' v'] m IH]; simpl; [discriminate|].
  destruct (String.eqb_spec k k') as [->|Hne].
  - intros H; inversion H; now left.
  - intros H; right; auto.
Qed.

Lemma REGION_MAP_keys_distinct : NoDup (map fst REGION_MAP).
Proof. apply distinct_NoDup; vm_compute; reflexivity. Qed.

(** C7.  The region of a county string [c]: the string is stripped of the
    white space at its two ends (the white space of [str.strip], which is
    that of Unicode), the result is looked up as it is in [REGION_MAP],
    and the region is the entry found, or the stripped string itself when
    the table has no such key. *)
Theorem region_of_lookup (c : string) :
  let t := list_ascii_of_string (strip c) in
  (exists pre post,
      list_ascii_of_string c = pre ++ t ++ post /\
      blank whitespace pre /\ blank whitespace post) /\
  (forall w r, In w whitespace -> t <> w ++ r) /\
  (forall w r, In w whitespace -> t <> r ++ w) /\
  (forall r, In (strip c, r) REGION_MAP -> region_of (JStr c) = Ok r) /\
  ((forall r, ~ In (strip c, r) REGION_MAP) -> region_of (JStr c) = Ok (strip c)) /\
  region_of (JStr "Hammersmith") = Ok "London" /\
  region_of (JStr "Atlantis") = Ok "Atlantis".
Proof.
  cbv zeta; unfold strip; rewrite list_ascii_of_string_of_list_ascii.
  destruct (strip_by_spec whitespace (list_ascii_of_string c)
              whitespace_nonempty) as [H1 [H2 H3]].
  fold (strip_chars (list_ascii_of_string c)) in H1, H2, H3.
  repeat split; try assumption.
  - intros r Hin; unfold region_of; cbn [py_strip bind]; unfold strip.
    now rewrite (assoc_In _ r _ REGION_MAP_keys_distinct Hin).
  - intros Hno; unfold region_of; cbn [py_strip bind]; unfold strip.
    destruct (assoc _ REGION_MAP) as [r|] eqn:E; [|reflexivity].
    exfalso; exact (Hno r (assoc_Some_In _ _ _ E)).
Qed.

Lemma region_of_lookup_witness :
  region_of (JStr "  West Yorkshire ") = Ok "Yorkshire" /\
  region_of (JStr ("Kent" ++ nbsp)) = Ok "South East" /\
  region_of (JStr " Narnia") = Ok "Narnia".
Proof.
  split; [|split].
  - apply (region_of_lookup "  West Yorkshire ").
    vm_compute; intuition congruence.
  - apply (region_of_lookup ("Kent" ++ nbsp)).
    vm_compute; intuition congruence.
  - apply (region_of_lookup " Narnia").
    vm_compute; intuition congruence.
Defined.

(** ** Failures of a run *)

(** C1, as the code has it.  When no pub survives the reduction, [main]
    ends at the national average: [sum(all_avgs) / len(all_avgs)] divides
    by zero and the [ZeroDivisionError] is not handled.  The output file is
    opened only later, so the run leaves the file system as it found it. *)
Theorem main_no_pubs (raw : json) (fs : files) :
  reduce_all raw = Ok [] ->
  main raw fs = (fs, Raise ZeroDivisionError).
Proof.
  intros H; unfold main, build; rewrite H; reflexivity.
Qed.

Lemma main_no_pubs_witness :
  reduce_all raw_no_beer = Ok [] /\
  main raw_no_beer None = (None, Raise ZeroDivisionError).
Proof.
  split; [reflexivity | apply main_no_pubs; reflexivity].
Defined.

(** C1, as the specification words it, fails: the failure of a run without
    pubs is the division by zero itself, not a diagnostic of its own. *)
Lemma main_no_pubs_is_division_by_zero :
  reduce_all raw_no_pubs = Ok [] /\
  ~ (exists e, snd (main raw_no_pubs None) = Raise e /\ e <> ZeroDivisionError).
Proof.
  split; [reflexivity|].
  intros [e [H Hne]]; apply Hne.
  vm_compute in H; now inversion H.
Qed.

(** C2 fails on the code.  The pub has a name and a town; its first beer
    has no [pint] field.  The selection of the prices skips that beer, but
    the search for the cheapest drink's name reads [d['pint']] of every
    beer and raises [KeyError]. *)
Theorem reduce_venue_missing_price :
  comprehension is_beer Ok beers_missing_price = Ok beers_missing_price /\
  select_prices beers_missing_price = Ok [JNum 3.5] /\
  first_name 3.5 beers_missing_price = Raise KeyError /\
  reduce_venue pub_missing_price = Raise KeyError.
Proof. repeat split; vm_compute; reflexivity. Qed.

(** ** De-duplication *)

Lemma in_stock_priced_truthy (d pj : json) :
  in_stock_priced d = Ok true ->
  subscript d "pint" = Ok pj ->
  truthy pj = true.
Proof.
  unfold in_stock_priced, get, get_default, subscript.
  destruct d; try discriminate.
  destruct (assoc "pint" kv) as [v|]; [|discriminate].
  intros H E; inversion E; subst; cbn [bind] in H.
  destruct (truthy pj); [reflexivity | discriminate].
Qed.

Lemma truthy_num_nonzero (pj : json) (p : Q) :
  truthy pj = true -> num_of pj = Ok p -> Qzero_b p = false.
Proof.
  unfold num_of; destruct pj as [|[|]|q| | |]; simpl; try discriminate.
  - intros _ E; inversion E; reflexivity.
  - intros H E; inversion E; subst; now apply negb_true_iff.
Qed.

(** What the loop appends: entries that are new with respect to [seen]
    and to one another. *)
Lemma dedup_loop_fresh (beers : list json) :
  forall seen acc out,
    dedup_loop beers seen acc = Ok out ->
    exists l, out = acc ++ l /\ fresh seen l.
Proof.
  induction beers as [|d rest IH]; intros seen acc out; cbn [dedup_loop].
  - intros H; inversion H; subst; exists []; split;
      [now rewrite app_nil_r | constructor].
  - destruct (in_stock_priced d) as [[|]|] eqn:Ec; cbn [bind];
      [| apply IH | discriminate].
    destruct (subscript d "name") as [n|] eqn:En; cbn [bind]; [|discriminate].
    destruct (subscript d "pint") as [pj|] eqn:Ep; cbn [bind]; [|discriminate].
    destruct (num_of pj) as [p|] eqn:Eq; cbn [bind]; [|discriminate].
    destruct (hashable n) eqn:Eh; [|discriminate].
    destruct (mem_key (n, p) seen) eqn:Em; cbn [negb]; [apply IH|].
    destruct (get_default d "abv" (JStr "")) as [abv|]; cbn [bind];
      [|discriminate].
    intros H; destruct (IH _ _ _ H) as [l [Hout Hl]].
    exists ({| sd_name := n; sd_price := p; sd_abv := abv |} :: l); split.
    + now rewrite Hout, <- app_assoc.
    + constructor; cbn; try assumption.
      eapply truthy_num_nonzero; [|exact Eq].
      eapply in_stock_priced_truthy; eassumption.
Qed.

(** Entries that are new are all appended when they are fed back. *)
Lemma dedup_loop_replay (seen : list key) (l : list simple_drink) :
  fresh seen l ->
  forall acc, dedup_loop (map relist l) seen acc = Ok (acc ++ l).
Proof.
  induction 1 as [seen | seen d l Hh Hp Hm Hl IH]; intros acc; cbn [map dedup_loop].
  - now rewrite app_nil_r.
  - unfold in_stock_priced, relist; cbn; rewrite Hp; cbn.
    rewrite Hh; unfold key_of in Hm; rewrite Hm; cbn.
    fold (relist d); rewrite IH, <- app_assoc; now destruct d.
Qed.

(** C9.  De-duplication by (name, price) is idempotent: the list that the
    loop produces, offered to the loop again as drinks on sale at their
    listed prices, comes out as it went in. *)
Theorem dedup_idempotent (beers : list json) (drink_list : list simple_drink) :
  dedup beers = Ok drink_list ->
  dedup (map relist drink_list) = Ok drink_list.
Proof.
  unfold dedup; intros H.
  destruct (dedup_loop_fresh _ _ _ _ H) as [l [-> Hl]].
  now apply dedup_loop_replay.
Qed.

Lemma dedup_idempotent_witness :
  let ipa := {| sd_name := JStr "IPA"; sd_price := 4.00; sd_abv := JStr "5.0" |} in
  let mild := {| sd_name := JStr "Mild"; sd_price := 2.49; sd_abv := JStr "" |} in
  dedup (map relist [ipa; mild]) = Ok [ipa; mild].
Proof.
  cbv zeta.
  apply (dedup_idempotent
           [JDict [("name", JStr "IPA"); ("cat", JStr "ale");
                   ("abv", JStr "5.0"); ("pint", JNum 4.00)];
            JDict [("name", JStr "Mild"); ("cat", JStr "ale");
                   ("pint", JNum 2.49)];
            JDict [("name", JStr "IPA"); ("cat", JStr "craft");
                   ("abv", JStr "5.0"); ("pint", JNum 4)];
            JDict [("name", JStr "Stout"); ("cat", JStr "stout");
                   ("pint", JNum 3.10); ("oos", JBool true)]]).
  reflexivity.
Defined.

(** ** Drinks without a price *)

Lemma comprehension_app {A B : Type} (cond : A -> result bool)
    (elt : A -> result B) (l1 l2 : list A) :
  comprehension cond elt (l1 ++ l2) =
  (r1 <- comprehension cond elt l1 ;;
   r2 <- comprehension cond elt l2 ;; Ok (r1 ++ r2)).
Proof.
  induction l1 as [|a l1 IH]; cbn [app comprehension bind].
  - destruct (comprehension cond elt l2); reflexivity.
  - destruct (cond a) as [[|]|]; cbn [bind]; try reflexivity; [|exact IH].
    destruct (elt a); cbn [bind]; [|reflexivity].
    rewrite IH; destruct (comprehension cond elt l1); cbn [bind]; [|reflexivity].
    destruct (comprehension cond elt l2); reflexivity.
Qed.

Lemma comprehension_skip {A B : Type} (cond : A -> result bool)
    (elt : A -> result B) (a : A) (l1 l2 : list A) :
  cond a = Ok false ->
  comprehension cond elt (l1 ++ a :: l2) = comprehension cond elt (l1 ++ l2).
Proof.
  intros H; rewrite !comprehension_app; cbn [comprehension]; rewrite H.
  reflexivity.
Qed.

Lemma unpriced_not_selected (d : json) :
  unpriced d -> in_stock_priced d = Ok false.
Proof.
  unfold in_stock_priced, get, get_default.
  intros [[kv [-> [H | [q [H Hq]]]]] | [kv [-> H]]]; rewrite H; cbn;
    try reflexivity.
  unfold Qzero_b; now rewrite (Qeq_eq_bool _ _ Hq).
Qed.

Lemma dedup_loop_skip (d : json) (l1 l2 : list json) :
  in_stock_priced d = Ok false ->
  forall seen acc,
    dedup_loop (l1 ++ d :: l2) seen acc = dedup_loop (l1 ++ l2) seen acc.
Proof.
  intros Hd; induction l1 as [|a l1 IH]; intros seen acc; cbn [app dedup_loop].
  - now rewrite Hd.
  - destruct (in_stock_priced a) as [[|]|]; cbn [bind]; auto.
    destruct (subscript a "name"); cbn [bind]; auto.
    destruct (subscript a "pint") as [pj|]; cbn [bind]; auto.
    destruct (num_of pj); cbn [bind]; auto.
    destruct (hashable a0); auto.
    destruct (negb (mem_key (a0, a1) seen)); auto.
    destruct (get_default a "abv" (JStr "")); cbn [bind]; auto.
Qed.

Lemma select_prices_unpriced (beers : list json) :
  Forall unpriced beers -> select_prices beers = Ok [].
Proof.
  unfold select_prices; induction 1 as [|d l Hd Hl IH]; cbn [comprehension].
  - reflexivity.
  - now rewrite (unpriced_not_selected d Hd).
Qed.

Lemma select_prices_truthy (beers : list json) :
  forall prices,
    select_prices beers = Ok prices ->
    Forall (fun v => truthy v = true) prices.
Proof.
  unfold select_prices; induction beers as [|d l IH]; intros prices;
    cbn [comprehension].
  - intros H; inversion H; constructor.
  - destruct (in_stock_priced d) as [[|]|] eqn:Ed; cbn [bind];
      [| apply IH | discriminate].
    destruct (subscript d "pint") as [pj|] eqn:Ep; cbn [bind]; [|discriminate].
    destruct (comprehension _ _ l) as [r|]; cbn [bind]; [|discriminate].
    intros H; inversion H; subst; constructor; [|now apply IH].
    eapply in_stock_priced_truthy; eassumption.
Qed.

Lemma numbers_nonzero (prices : list json) :
  Forall (fun v => truthy v = true) prices ->
  forall nums,
    numbers prices = Ok nums ->
    Forall (fun q => Qzero_b q = false) nums.
Proof.
  unfold numbers; induction 1 as [|v l Hv Hl IH]; intros nums; cbn [mapM].
  - intros H; inversion H; constructor.
  - destruct (num_of v) as [q|] eqn:Eq; cbn [bind]; [|discriminate].
    destruct (mapM num_of l) as [r|]; cbn [bind]; [|discriminate].
    intros H; inversion H; subst; constructor; [|now apply IH].
    eapply truthy_num_nonzero; eassumption.
Qed.

Lemma min_from_In (l : list Q) :
  forall m, min_from m l = m \/ In (min_from m l) l.
Proof.
  induction l as [|x l IH]; intros m; cbn [min_from]; [now left|].
  destruct (IH (if Qlt_b x m then x else m)) as [H | H].
  - rewrite H; destruct (Qlt_b x m); [right; now left | now left].
  - right; now right.
Qed.

Lemma py_min_In (l : list Q) (c : Q) : py_min l = Ok c -> In c l.
Proof.
  destruct l as [|x l]; [discriminate|].
  cbn [py_min]; intros H; inversion H.
  destruct (min_from_In l x) as [E | E]; [left; now rewrite E | now right].
Qed.

Lemma first_name_skip (c : Q) (d v : json) (l1 l2 : list json) :
  subscript d "pint" = Ok v ->
  num_eq v c = false ->
  first_name c (l1 ++ d :: l2) = first_name c (l1 ++ l2).
Proof.
  intros Hv Hc; induction l1 as [|a l1 IH]; cbn [app first_name].
  - now rewrite Hv; cbn [bind]; rewrite Hc.
  - destruct (subscript a "pint") as [p|]; cbn [bind]; [|reflexivity].
    destruct (num_eq p c); [|exact IH].
    destruct (get a "oos") as [o|]; cbn [bind]; [|reflexivity].
    destruct (negb (truthy o)); [reflexivity | exact IH].
Qed.

Lemma zero_priced_pint (d : json) (c : Q) :
  zero_priced d ->
  Qzero_b c = false ->
  exists v, subscript d "pint" = Ok v /\ num_eq v c = false.
Proof.
  intros [kv [-> [H | [q [H Hq]]]]] Hc; unfold subscript; rewrite H.
  - exists JNull; split; reflexivity.
  - exists (JNum q); split; [reflexivity|].
    unfold num_eq; cbn [as_num].
    destruct (Qeq_bool q c) eqn:E; [|reflexivity].
    apply Qeq_bool_eq in E; unfold Qzero_b in Hc.
    assert (Hc0 : (c == 0)%Q) by now rewrite <- E.
    now rewrite (Qeq_eq_bool _ _ Hc0) in Hc.
Qed.

Lemma match_nonempty {A B : Type} (l : list A) (a b : B) :
  l <> [] -> match l with [] => a | _ :: _ => b end = b.
Proof. destruct l; [congruence | reflexivity]. Qed.

(** A beer priced at zero or [null] leaves the summary of the pub as it
    is without that beer. *)
Lemma summarise_zero_priced (d : json) (b1 b2 ds ds' : list json)
    (fields : list (string * json)) :
  zero_priced d ->
  summarise (pub_with ds fields) (b1 ++ d :: b2) =
  summarise (pub_with ds' fields) (b1 ++ b2).
Proof.
  intros Hz.
  assert (Hu : in_stock_priced d = Ok false)
    by (apply unpriced_not_selected; now left).
  unfold summarise.
  rewrite (match_nonempty (b1 ++ d :: b2)) by (destruct b1; discriminate).
  unfold select_prices, dedup.
  rewrite (comprehension_skip _ _ d b1 b2 Hu), (dedup_loop_skip d b1 b2 Hu).
  fold (select_prices (b1 ++ b2)); fold (dedup (b1 ++ b2)).
  assert (Hcases : b1 ++ b2 = [] \/ b1 ++ b2 <> [])
    by (destruct (b1 ++ b2); [now left | right; discriminate]).
  destruct Hcases as [He | Hne].
  - apply app_eq_nil in He; destruct He; subst; reflexivity.
  - rewrite (match_nonempty (b1 ++ b2)) by exact Hne.
    destruct (select_prices (b1 ++ b2)) as [prices|] eqn:Ep; cbn [bind];
      [|reflexivity].
    destruct prices as [|p0 prices]; [reflexivity|].
    destruct (numbers (p0 :: prices)) as [nums|] eqn:En; cbn [bind];
      [|reflexivity].
    destruct (py_div _ _); cbn [bind]; [|reflexivity].
    destruct (py_min nums) as [c|] eqn:Ec; cbn [bind]; [|reflexivity].
    destruct (py_max nums); cbn [bind]; [|reflexivity].
    assert (Hc : Qzero_b c = false).
    { pose proof (numbers_nonzero _ (select_prices_truthy _ _ Ep) _ En) as Hnz.
      rewrite Forall_forall in Hnz; apply Hnz; now apply py_min_In. }
    destruct (zero_priced_pint d c Hz Hc) as [v [Hv Hvc]].
    rewrite (first_name_skip c d v b1 b2 Hv Hvc).
    reflexivity.
Qed.

Lemma beers_of_pub_with (ds : list json) (fields : list (string * json)) :
  beers_of (pub_with ds fields) = comprehension is_beer Ok ds.
Proof. reflexivity. Qed.

(** C10.  A drink whose [pint] is zero, [null] or missing is not selected:
    it adds nothing to [prices], from which the average, the minimum and
    the maximum are computed, nor to the de-duplicated drink list; a pub
    all of whose beers are so is dropped; and a beer priced zero or [null]
    changes nothing in the entry of its pub. *)
Theorem unpriced_drinks_excluded :
  (forall d l1 l2,
      unpriced d ->
      select_prices (l1 ++ d :: l2) = select_prices (l1 ++ l2) /\
      dedup (l1 ++ d :: l2) = dedup (l1 ++ l2)) /\
  (forall pub beers,
      beers_of pub = Ok beers ->
      Forall unpriced beers ->
      reduce_venue pub = Ok None) /\
  (forall d b l1 l2 fields,
      zero_priced d ->
      is_beer d = Ok b ->
      reduce_venue (pub_with (l1 ++ d :: l2) fields) =
      reduce_venue (pub_with (l1 ++ l2) fields)).
Proof.
  split; [|split].
  - intros d l1 l2 Hd; pose proof (unpriced_not_selected d Hd) as Hu; split.
    + now apply comprehension_skip.
    + now apply dedup_loop_skip.
  - intros pub beers Hb Hall; unfold reduce_venue; rewrite Hb; cbn [bind].
    unfold summarise; rewrite (select_prices_unpriced beers Hall).
    now destruct beers.
  - intros d b l1 l2 fields Hz Hb; unfold reduce_venue.
    rewrite !beers_of_pub_with, !comprehension_app.
    cbn [comprehension]; rewrite Hb; cbn [bind].
    destruct (comprehension is_beer Ok l1) as [b1|]; cbn [bind]; [|reflexivity].
    destruct (comprehension is_beer Ok l2) as [b2|]; cbn [bind];
      [|now destruct b].
    destruct b; cbn [bind]; [|reflexivity].
    now apply summarise_zero_priced.
Qed.

Lemma unpriced_drinks_excluded_witness :
  select_prices [festival_ale; ruddles] = select_prices [ruddles] /\
  reduce_venue (pub_with [festival_ale] moon_fields) = Ok None /\
  reduce_venue (pub_with [festival_ale; ruddles] moon_fields) =
  reduce_venue (pub_with [ruddles] moon_fields).
Proof.
  assert (Hz : zero_priced festival_ale).
  { eexists; split; [reflexivity|].
    right; exists 0%Q; split; reflexivity. }
  destruct unpriced_drinks_excluded as [H1 [H2 H3]].
  split; [|split].
  - apply (H1 festival_ale [] [ruddles]); now left.
  - apply (H2 _ [festival_ale]); [reflexivity|].
    constructor; [now left | constructor].
  - apply (H3 festival_ale true [] [ruddles] moon_fields Hz); reflexivity.
Defined.

(** ** The statistics of a pub *)

Lemma Qlt_b_spec (x y : Q) : if Qlt_b x y then (x < y)%Q else (y <= x)%Q.
Proof.
  unfold Qlt_b; destruct (Qle_bool y x) eqn:E; cbn [negb].
  - now apply Qle_bool_iff.
  - apply Qnot_le_lt; intros H; apply Qle_bool_iff in H; congruence.
Qed.

Lemma min_from_le (l : list Q) :
  forall m, (min_from m l <= m)%Q /\ forall x, In x l -> (min_from m l <= x)%Q.
Proof.
  induction l as [|y l IH]; intros m; cbn [min_from].
  - split; [lra | intros x []].
  - destruct (IH (if Qlt_b y m then y else m)) as [H1 H2].
    pose proof (Qlt_b_spec y m) as Hc.
    destruct (Qlt_b y m); split; try lra.
    + intros x [<- | Hx]; [lra | auto].
    + intros x [<- | Hx]; [lra | auto].
Qed.

Lemma max_from_ge (l : list Q) :
  forall m, (m <= max_from m l)%Q /\ forall x, In x l -> (x <= max_from m l)%Q.
Proof.
  induction l as [|y l IH]; intros m; cbn [max_from].
  - split; [lra | intros x []].
  - destruct (IH (if Qlt_b m y then y else m)) as [H1 H2].
    pose proof (Qlt_b_spec m y) as Hc.
    destruct (Qlt_b m y); split; try lra.
    + intros x [<- | Hx]; [lra | auto].
    + intros x [<- | Hx]; [lra | auto].
Qed.

Lemma max_from_In (l : list Q) :
  forall m, max_from m l = m \/ In (max_from m l) l.
Proof.
  induction l as [|x l IH]; intros m; cbn [max_from]; [now left|].
  destruct (IH (if Qlt_b m x then x else m)) as [H | H].
  - rewrite H; destruct (Qlt_b m x); [right; now left | now left].
  - right; now right.
Qed.

Lemma py_max_In (l : list Q) (c : Q) : py_max l = Ok c -> In c l.
Proof.
  destruct l as [|x l]; [discriminate|].
  cbn [py_max]; intros H; inversion H.
  destruct (max_from_In l x) as [E | E]; [left; now rewrite E | now right].
Qed.

Lemma py_min_le (l : list Q) (c : Q) :
  py_min l = Ok c -> forall x, In x l -> (c <= x)%Q.
Proof.
  destruct l as [|y l]; [discriminate|].
  cbn [py_min]; intros H; inversion H; subst.
  destruct (min_from_le l y) as [H1 H2].
  intros x [<- | Hx]; auto.
Qed.

Lemma py_max_ge (l : list Q) (c : Q) :
  py_max l = Ok c -> forall x, In x l -> (x <= c)%Q.
Proof.
  destruct l as [|y l]; [discriminate|].
  cbn [py_max]; intros H; inversion H; subst.
  destruct (max_from_ge l y) as [H1 H2].
  intros x [<- | Hx]; auto.
Qed.





(** ** Sorting *)

Section SortingFacts.
Context {A : Type} (key : A -> Q).

Lemma insert_by_perm (x : A) (l : list A) :
  Permutation (insert_by key x l) (x :: l).
Proof.
  induction l as [|y l IH]; cbn [insert_by]; [reflexivity|].
  destruct (Qle_bool (key x) (key y)); [reflexivity|].
  rewrite IH; apply perm_swap.
Qed.

Lemma sort_by_perm (l : list A) : Permutation (sort_by key l) l.
Proof.
  induction l as [|x l IH]; cbn [sort_by]; [reflexivity|].
  rewrite insert_by_perm; now constructor.
Qed.

Lemma insert_by_sorted (x : A) (l : list A) :
  StronglySorted (key_le key) l -> StronglySorted (key_le key) (insert_by key x l).
Proof.
  induction 1 as [|y l Hl IH Hy]; cbn [insert_by].
  - repeat constructor.
  - destruct (Qle_bool (key x) (key y)) eqn:E.
    + apply Qle_bool_iff in E.
      constructor; [now constructor|].
      constructor; [exact E|].
      eapply Forall_impl; [|exact Hy].
      intros z Hz; unfold key_le in *; lra.
    + assert (Hyx : (key y <= key x)%Q).
      { apply Qlt_le_weak, Qnot_le_lt; intros H.
        apply Qle_bool_iff in H; congruence. }
      constructor; [exact IH|].
      apply (Permutation_Forall (Permutation_sym (insert_by_perm x l))).
      now constructor.
Qed.

Lemma sort_by_sorted (l : list A) : StronglySorted (key_le key) (sort_by key l).
Proof.
  induction l as [|x l IH]; cbn [sort_by];
    [constructor | now apply insert_by_sorted].
Qed.

End SortingFacts.

Lemma StronglySorted_skipn {A : Type} (R : A -> A -> Prop) (n : nat) (l : list A) :
  StronglySorted R l -> StronglySorted R (skipn n l).
Proof.
  revert l; induction n as [|n IH]; intros l H; [exact H|].
  destruct l as [|a l]; [exact H|].
  apply IH; now inversion H.
Qed.

Lemma StronglySorted_app_inv {A : Type} (R : A -> A -> Prop) (l : list A) (a : A) :
  StronglySorted R l -> Forall (fun b => R b a) l -> StronglySorted R (l ++ [a]).
Proof.
  induction 1 as [|b l Hl IH Hb]; intros Ha; cbn [app].
  - repeat constructor.
  - inversion Ha; subst; constructor; [auto|].
    apply Forall_app; split; [exact Hb | now constructor].
Qed.

Lemma StronglySorted_rev {A : Type} (R : A -> A -> Prop) (l : list A) :
  StronglySorted R l -> StronglySorted (fun a b => R b a) (rev l).
Proof.
  induction 1 as [|a l Hl IH Ha]; cbn [rev]; [constructor|].
  apply StronglySorted_app_inv; [exact IH|].
  apply Forall_rev; exact Ha.
Qed.

(** ** The leaderboards *)

Lemma length_last_n {A : Type} (n : nat) (l : list A) :
  List.length (last_n n l) = Nat.min n (List.length l).
Proof. unfold last_n; rewrite length_skipn; lia. Qed.

Lemma nth_error_rev_last_n {A : Type} (n i : nat) (l : list A) :
  (i < Nat.min n (List.length l))%nat ->
  nth_error (rev (last_n n l)) i = nth_error l (List.length l - S i).
Proof.
  intros Hi; rewrite nth_error_rev, length_last_n.
  destruct (Nat.ltb_spec i (Nat.min n (List.length l))) as [_|]; [|lia].
  unfold last_n; rewrite nth_error_skipn; f_equal; lia.
Qed.

(** C8, as the code has it.  The priciest leaderboard lists the last 20
    pubs of [clean_pubs], which is sorted by ascending average, in reverse
    order, the highest average first.  Each entry has the fields [name],
    [town], [postcode], [avg], [max], [lat] and [lon]: the fields of an
    entry of the cheapest leaderboard with [max] for [min] and without
    [cheapest], the name of the cheapest drink. *)
Theorem priciest_board_spec (raw out : json) :
  build raw = Ok out ->
  exists unsorted,
    reduce_all raw = Ok unsorted /\
    let clean_pubs := sort_by cp_avg unsorted in
    let board := rev (last_n 20 clean_pubs) in
    Permutation clean_pubs unsorted /\
    StronglySorted (key_le cp_avg) clean_pubs /\
    subscript out "priciest" = Ok (JList (map priciest_entry board)) /\
    List.length board = Nat.min 20 (List.length clean_pubs) /\
    (forall i, (i < List.length board)%nat ->
       nth_error board i =
       nth_error clean_pubs (List.length clean_pubs - S i)) /\
    StronglySorted (fun a b => cp_avg b <= cp_avg a)%Q board /\
    (forall p,
       keys_of (priciest_entry p) =
         ["name"; "town"; "postcode"; "avg"; "max"; "lat"; "lon"] /\
       keys_of (cheapest_entry p) =
         ["name"; "town"; "postcode"; "avg"; "min"; "cheapest"; "lat"; "lon"] /\
       subscript (priciest_entry p) "avg" = Ok (JNum (cp_avg p)) /\
       subscript (priciest_entry p) "max" = Ok (JNum (cp_max p))).
Proof.
  unfold build.
  destruct (reduce_all raw) as [unsorted|]; cbn [bind]; [|discriminate].
  do 6 bind_ok.
  intros H; inversion H; subst out; clear H.
  exists unsorted; split; [reflexivity|]; cbv zeta.
  pose proof (sort_by_sorted cp_avg unsorted) as Hs.
  repeat split.
  - apply sort_by_perm.
  - exact Hs.
  - now rewrite length_rev, length_last_n.
  - intros i Hi; rewrite length_rev, length_last_n in Hi.
    now apply nth_error_rev_last_n.
  - apply (StronglySorted_rev (key_le cp_avg)), StronglySorted_skipn, Hs.
Qed.

Lemma priciest_board_spec_witness :
  exists out,
    build raw_one_pub = Ok out /\
    exists p,
      subscript out "priciest" = Ok (JList [priciest_entry p]) /\
      cp_name p = JStr "The Moon Under Water".
Proof.
  eexists; split; [reflexivity|].
  destruct (priciest_board_spec raw_one_pub _ eq_refl)
    as [unsorted [Hu [_ [_ [Hp _]]]]].
  vm_compute in Hu; inversion Hu; subst unsorted; clear Hu.
  eexists; split; [exact Hp | reflexivity].
Defined.

(** C8, as the specification words it, fails: an entry of the priciest
    leaderboard has no field [cheapest], which every entry of the cheapest
    leaderboard has. *)
Lemma priciest_entry_lacks_cheapest_name :
  exists out cs ps,
    build raw_one_pub = Ok out /\
    subscript out "cheapest" = Ok (JList cs) /\
    subscript out "priciest" = Ok (JList ps) /\
    map keys_of ps <> map (fun c => map swap_min_max (keys_of c)) cs /\
    Forall (fun c => In "cheapest" (keys_of c)) cs /\
    Forall (fun e => ~ In "cheapest" (keys_of e)) ps.
Proof.
  eexists; eexists; eexists.
  split; [vm_compute; reflexivity|].
  split; [vm_compute; reflexivity|].
  split; [vm_compute; reflexivity|].
  split; [|split].
  - vm_compute; discriminate.
  - repeat constructor; vm_compute; tauto.
  - repeat constructor; vm_compute.
    intros H; repeat (destruct H as [H | H]; [discriminate|]); exact H.
Qed.

(** ** Regional statistics *)

Lemma add_to_group_assoc (name region : string) (a : Q)
    (regions : list (string * list Q)) :
  assoc name (add_to_group region a regions) =
  if String.eqb name region then Some (group region regions ++ [a])
  else assoc name regions.
Proof.
  unfold group; induction regions as [|[r l] rest IH]; cbn [add_to_group assoc].
  - destruct (String.eqb name region); reflexivity.
  - destruct (String.eqb_spec region r) as [->|Hne]; cbn [assoc].
    + destruct (String.eqb name r); reflexivity.
    + rewrite IH.
      destruct (String.eqb_spec name r) as [->|Hn].
      * destruct (String.eqb_spec r region) as [->|_]; [congruence | reflexivity].
      * reflexivity.
Qed.

Lemma group_add_to_group (name region : string) (a : Q)
    (regions : list (string * list Q)) :
  group name (add_to_group region a regions) =
  if String.eqb name region then group region regions ++ [a]
  else group name regions.
Proof.
  unfold group at 1; rewrite add_to_group_assoc.
  destruct (String.eqb name region); reflexivity.
Qed.

Lemma add_to_group_keys (region : string) (a : Q)
    (regions : list (string * list Q)) :
  NoDup (map fst regions) ->
  NoDup (map fst (add_to_group region a regions)) /\
  (forall k, In k (map fst (add_to_group region a regions)) ->
             k = region \/ In k (map fst regions)).
Proof.
  induction regions as [|[r l] rest IH]; cbn [add_to_group map fst]; intros Hnd.
  - split; [repeat constructor; intros [] | intros k [<-|[]]; now left].
  - inversion Hnd as [|? ? Hr Hrest]; subst.
    destruct (String.eqb_spec region r) as [->|Hne]; cbn [map fst].
    + split; [exact Hnd | intros k Hk; now right].
    + destruct (IH Hrest) as [H1 H2]; split.
      * constructor; [|exact H1].
        intros Hin; destruct (H2 _ Hin) as [E | Hin']; [congruence | contradiction].
      * intros k [<- | Hk]; [right; now left|].
        destruct (H2 _ Hk) as [E | Hin']; [now left | right; now right].
Qed.

Lemma add_to_group_nonempty (region : string) (a : Q)
    (regions : list (string * list Q)) :
  Forall (fun g => snd g <> []) regions ->
  Forall (fun g => snd g <> []) (add_to_group region a regions).
Proof.
  induction 1 as [|[r l] rest Hl Hrest IH]; cbn [add_to_group].
  - repeat constructor; discriminate.
  - destruct (String.eqb region r); constructor; auto.
    cbn; destruct l; discriminate.
Qed.

(** The grouping loop ends, and files the averages of the pubs under their
    regions in the order of the pubs. *)
Lemma group_regions_spec (pubs : list clean_pub) :
  Forall county_is_text pubs ->
  forall acc,
    NoDup (map fst acc) ->
    Forall (fun g => snd g <> []) acc ->
    exists regions,
      group_regions pubs acc = Ok regions /\
      NoDup (map fst regions) /\
      Forall (fun g => snd g <> []) regions /\
      forall name, group name regions = group name acc ++ member_avgs name pubs.
Proof.
  induction 1 as [|p pubs [s Hs] Hpubs IH]; intros acc Hnd Hne;
    cbn [group_regions].
  - exists acc; repeat split; try assumption.
    intros name; now rewrite app_nil_r.
  - rewrite Hs; cbn [region_of py_strip bind].
    set (region := match assoc (strip s) REGION_MAP with
                   | Some r => r | None => strip s end).
    destruct (IH (add_to_group region (cp_avg p) acc)
                (proj1 (add_to_group_keys region (cp_avg p) acc Hnd))
                (add_to_group_nonempty region (cp_avg p) acc Hne))
      as [regions [Hg [Hnd' [Hne' Hall]]]].
    exists regions; repeat split; try assumption.
    intros name; rewrite Hall, group_add_to_group.
    unfold member_avgs; cbn [filter]; unfold in_region at 2.
    rewrite Hs; cbn [region_of py_strip bind]; fold region.
    rewrite (String.eqb_sym region name).
    destruct (String.eqb_spec name region) as [->|_]; cbn [map].
    + now rewrite <- app_assoc.
    + reflexivity.
Qed.

Lemma stat_of_spec (name : string) (m : list Q) :
  m <> [] -> exists r, stat_of name m = Ok r /\ is_stat name m r.
Proof.
  intros Hne; destruct m as [|x m]; [congruence|].
  unfold stat_of, is_stat; cbn [py_div List.length bind py_min py_max].
  eexists; split; [reflexivity | split; reflexivity].
Qed.

(** The loop over the groups: one entry for each group of two or more, in
    the order of the groups. *)
Lemma regional_entries (regions : list (string * list Q)) :
  exists l,
    comprehension (fun g => Ok (2 <=? List.length (snd g))%nat)
      (fun g => stat_of (fst g) (snd g)) regions = Ok l /\
    Forall2 (fun g r => is_stat (fst g) (snd g) r)
      (filter (fun g => 2 <=? List.length (snd g))%nat regions) l.
Proof.
  induction regions as [|g regions [l [Hl HF]]]; cbn [comprehension filter bind].
  - exists []; split; [reflexivity | constructor].
  - destruct (Nat.leb_spec 2 (List.length (snd g))) as [Hge | Hlt].
    + destruct (stat_of_spec (fst g) (snd g)) as [r [Hr Hs]].
      { destruct (snd g); [cbn in Hge; lia | discriminate]. }
      rewrite Hr, Hl; cbn [bind]; exists (r :: l); split;
        [reflexivity | now constructor].
    + exists l; split; assumption.
Qed.

Lemma Forall2_In_l {A B : Type} (P : A -> B -> Prop) (l1 : list A) (l2 : list B) :
  Forall2 P l1 l2 -> forall x, In x l1 -> exists y, In y l2 /\ P x y.
Proof.
  induction 1 as [|a b l1 l2 Hab HF IH]; intros x; [intros []|].
  intros [<- | Hx]; [exists b; split; [now left | exact Hab]|].
  destruct (IH x Hx) as [y [Hy Hp]]; exists y; split; [now right | exact Hp].
Qed.

Lemma Forall2_In_r {A B : Type} (P : A -> B -> Prop) (l1 : list A) (l2 : list B) :
  Forall2 P l1 l2 -> forall y, In y l2 -> exists x, In x l1 /\ P x y.
Proof.
  induction 1 as [|a b l1 l2 Hab HF IH]; intros y; [intros []|].
  intros [<- | Hy]; [exists a; split; [now left | exact Hab]|].
  destruct (IH y Hy) as [x [Hx Hp]]; exists x; split; [now right | exact Hp].
Qed.

Lemma filter_keys_NoDup {V : Type} (keep : string * V -> bool)
    (m : list (string * V)) :
  NoDup (map fst m) -> NoDup (map fst (filter keep m)).
Proof.
  intros Hnd; induction m as [|g m IH]; cbn [map filter]; [constructor|].
  cbn [map] in Hnd; apply NoDup_cons_iff in Hnd; destruct Hnd as [Hg Hm].
  destruct (keep g); cbn [map]; [|now apply IH].
  apply NoDup_cons; [|now apply IH].
  intros Hin; apply Hg; apply in_map_iff in Hin.
  destruct Hin as [x [Hx Hin]]; apply filter_In in Hin.
  rewrite <- Hx; apply in_map; tauto.
Qed.

Lemma StronglySorted_impl {A : Type} (R S : A -> A -> Prop) (l : list A) :
  (forall a b, R a b -> S a b) -> StronglySorted R l -> StronglySorted S l.
Proof.
  intros HRS; induction 1 as [|a l Hl IH Ha]; constructor; [exact IH|].
  eapply Forall_impl; [|exact Ha]; auto.
Qed.

(** For pubs whose county is a string, [regional] has exactly one entry
    for each region with two pubs or more, the entry carries the number
    of the pubs of the region, and the entries are in descending order of
    [avg]. *)
Theorem regional_groups (pubs : list clean_pub) :
  Forall county_is_text pubs ->
  exists regional,
    regional_stats pubs = Ok regional /\
    NoDup (map rs_name regional) /\
    (forall name,
        In name (map rs_name regional) <->
        (2 <= List.length (filter (in_region name) pubs))%nat) /\
    (forall r, In r regional ->
               rs_pubs r = List.length (filter (in_region (rs_name r)) pubs)) /\
    StronglySorted (fun a b => rs_avg b <= rs_avg a)%Q regional.
Proof.
  intros Hc; unfold regional_stats, regional_of.
  destruct (group_regions_spec pubs Hc [] (NoDup_nil _) (Forall_nil _))
    as [regions [Hg [Hnd [_ Hall]]]].
  rewrite Hg; cbn [bind].
  destruct (regional_entries regions) as [l [Hl HF]].
  rewrite Hl; cbn [bind].
  set (big := fun g : string * list Q => (2 <=? List.length (snd g))%nat) in *.
  set (regional := sort_by (fun r => - rs_avg r)%Q l).
  pose proof (sort_by_perm (fun r => - rs_avg r)%Q l) as Hperm; fold regional in Hperm.
  assert (Hcount : forall name,
             List.length (member_avgs name pubs) =
             List.length (filter (in_region name) pubs))
    by (intros name; apply length_map).
  assert (Hmem : forall g, In g regions -> snd g = member_avgs (fst g) pubs).
  { intros [name m] Hin; cbn [fst snd].
    rewrite <- (app_nil_l (member_avgs name pubs)).
    change (@nil Q) with (group name []); rewrite <- Hall.
    unfold group; now rewrite (assoc_In _ _ _ Hnd Hin). }
  assert (Hnames : map rs_name l = map fst (filter big regions)).
  { clear - HF; induction HF as [|g r l1 l2 Hs HF IH]; [reflexivity|].
    cbn [map]; f_equal; [apply Hs | exact IH]. }
  exists regional; split; [reflexivity|].
  split; [|split; [|split]].
  - apply (Permutation_NoDup (Permutation_map rs_name (Permutation_sym Hperm))).
    rewrite Hnames; now apply filter_keys_NoDup.
  - intros name; rewrite <- Hcount; split.
    + intros Hin.
      apply (Permutation_in _ (Permutation_map rs_name Hperm)) in Hin.
      rewrite Hnames in Hin; apply in_map_iff in Hin.
      destruct Hin as [g [<- Hg']]; apply filter_In in Hg'.
      destruct Hg' as [Hin Hbig]; rewrite <- (Hmem g Hin).
      now apply Nat.leb_le.
    + intros Hlen.
      apply (Permutation_in _ (Permutation_map rs_name (Permutation_sym Hperm))).
      rewrite Hnames; apply in_map_iff.
      exists (name, member_avgs name pubs); split; [reflexivity|].
      apply filter_In; split; [|now apply Nat.leb_le].
      apply assoc_Some_In.
      specialize (Hall name); unfold group in Hall; cbn [assoc app] in Hall.
      destruct (assoc name regions) as [m|]; [now rewrite Hall|].
      rewrite <- Hall in Hlen; cbn in Hlen; lia.
  - intros r Hr; apply (Permutation_in _ Hperm) in Hr.
    destruct (Forall2_In_r _ _ _ HF r Hr) as [g [Hg' [Hn Hp]]].
    apply filter_In in Hg'; destruct Hg' as [Hin _].
    now rewrite Hp, Hn, (Hmem g Hin), Hcount.
  - apply (StronglySorted_impl (key_le (fun r => - rs_avg r)%Q)).
    + intros a b Hab; unfold key_le in Hab; lra.
    + apply sort_by_sorted.
Qed.

Lemma regional_groups_witness :
  exists regional,
    regional_stats [two_pubs_a; two_pubs_b; lone_pub] = Ok regional /\
    map rs_name regional = ["Testland2"] /\
    map rs_pubs regional = [2%nat].
Proof.
  destruct (regional_groups [two_pubs_a; two_pubs_b; lone_pub])
    as [regional [H _]].
  - repeat constructor; eexists; reflexivity.
  - exists regional; split; [exact H|].
    vm_compute in H; inversion H; repeat split.
Defined.

(** * Further properties of the code *)

(** ** The classifier, [is_beer] *)

Lemma py_float_raises (v : json) (e : exn) :
  py_float v = Raise e ->
  e = ValueError \/ e = TypeError \/
  (e = OverflowError /\
   exists q, v = JNum q /\ (overflow_bound <= Qabs q)%Q).
Proof.
  destruct v as [|b|q|s|l|kv]; cbn [py_float]; try discriminate;
    try (intros H; inversion H; right; now left).
  - destruct (Qle_bool overflow_bound (Qabs q)) eqn:E; [|discriminate].
    intros H; inversion H; right; right; split; [reflexivity|].
    exists q; split; [reflexivity | now apply Qle_bool_iff].
  - destruct (float_of_string s); [discriminate|].
    intros H; inversion H; now left.
Qed.

Lemma existsb_str_in_false (words : list string) (s : string) :
  existsb (fun w => str_in w s) words = false <->
  forall w, In w words -> ~ exists pre post, s = (pre ++ w ++ post)%string.
Proof.
  split.
  - intros H w Hw Hsub; apply str_in_spec in Hsub.
    assert (Ht : existsb (fun w0 => str_in w0 s) words = true)
      by (apply existsb_exists; now exists w).
    congruence.
  - intros H; destruct (existsb _ words) eqn:E; [|reflexivity].
    apply existsb_exists in E; destruct E as [w [Hw Hs]].
    exfalso; apply (H w Hw); now apply str_in_spec.
Qed.

Lemma existsb_str_in_true (words : list string) (s : string) :
  existsb (fun w => str_in w s) words = true <->
  exists w pre post, In w words /\ s = (pre ++ w ++ post)%string.
Proof.
  rewrite existsb_exists; split.
  - intros [w [Hw Hs]]; apply str_in_spec in Hs.
    destruct Hs as [pre [post Hs]]; now exists w, pre, post.
  - intros [w [pre [post [Hw Hs]]]]; exists w; split; [exact Hw|].
    apply str_in_spec; now exists pre, post.
Qed.

(** A drink whose [abv] converts to a float that is not at most zero is
    accepted as soon as its name has no excluded word: the category is not
    looked at, whatever it says. *)
Theorem is_beer_positive_abv (d abv : json) (x : xfloat) (n : string) :
  text_or_absent d "cat" ->
  get_default d "abv" (JStr "") = Ok abv ->
  py_float abv = Ok x ->
  le_zero x = false ->
  get_default d "name" (JStr "") = Ok (JStr n) ->
  no_excluded_word n ->
  is_beer d = Ok true.
Proof.
  intros [c Hc] Ha Hx Hle Hn Hex.
  unfold is_beer; rewrite Hc, Ha; cbn [bind py_lower].
  unfold abv_gate; rewrite Hx, Hle; cbn [bind negb].
  rewrite Hn; cbn [bind py_lower].
  now rewrite (proj2 (existsb_str_in_false exclude (lower n)) Hex).
Qed.

Lemma is_beer_positive_abv_witness :
  is_beer (JDict [("name", JStr "House Red"); ("cat", JStr "Wine");
                  ("abv", JStr "12.5")]) = Ok true.
Proof.
  apply (is_beer_positive_abv _ (JStr "12.5") (Fin 12.5) "House Red");
    try reflexivity.
  - exists "Wine"; reflexivity.
  - unfold no_excluded_word.
    apply (proj1 (existsb_str_in_false exclude (lower "House Red"))).
    reflexivity.
Defined.

(** When [float(abv)] fails with [ValueError] or [TypeError] (a blank,
    [null] or otherwise unreadable [abv]), a drink with a string category
    and a string name is accepted exactly when the category contains a
    word of [BEER_CATS] and the name contains no word of [exclude]. *)
Theorem is_beer_unreadable_abv (d abv : json) (e : exn) (c n : string) :
  get_default d "cat" (JStr "") = Ok (JStr c) ->
  get_default d "abv" (JStr "") = Ok abv ->
  py_float abv = Raise e ->
  e = ValueError \/ e = TypeError ->
  get_default d "name" (JStr "") = Ok (JStr n) ->
  exists b,
    is_beer d = Ok b /\
    (b = true <-> beer_category c /\ no_excluded_word n).
Proof.
  intros Hc Ha He Hkind Hn.
  unfold is_beer; rewrite Hc, Ha; cbn [bind py_lower].
  unfold abv_gate; rewrite He.
  assert (Hgate : (match e with
                   | ValueError | TypeError =>
                       Ok (existsb (fun bc => str_in bc (lower c)) BEER_CATS)
                   | _ => Raise e
                   end) = Ok (existsb (fun bc => str_in bc (lower c)) BEER_CATS)).
  { destruct Hkind as [-> | ->]; reflexivity. }
  rewrite Hgate; cbn [bind].
  destruct (existsb (fun bc => str_in bc (lower c)) BEER_CATS) eqn:Ecat;
    cbn [negb].
  - rewrite Hn; cbn [bind py_lower].
    apply existsb_str_in_true in Ecat.
    destruct (existsb (fun e0 => str_in e0 (lower n)) exclude) eqn:Eex.
    + exists false; split; [reflexivity|].
      split; [discriminate|]; intros [_ Hno].
      pose proof (proj2 (existsb_str_in_false exclude (lower n)) Hno).
      congruence.
    + exists true; split; [reflexivity|].
      split; [|reflexivity]; intros _; split; [exact Ecat|].
      exact (proj1 (existsb_str_in_false exclude (lower n)) Eex).
  - exists false; split; [reflexivity|].
    split; [discriminate|]; intros [Hcat _].
    pose proof (proj2 (existsb_str_in_true BEER_CATS (lower c)) Hcat).
    congruence.
Qed.

Lemma is_beer_unreadable_abv_witness :
  exists b,
    is_beer (JDict [("name", JStr "Guinness"); ("cat", JStr "Draught Stout");
                    ("abv", JNull)]) = Ok b /\
    (b = true <-> beer_category "Draught Stout" /\ no_excluded_word "Guinness").
Proof.
  apply (is_beer_unreadable_abv _ JNull TypeError);
    try reflexivity; now right.
Defined.

(** [is_beer] raises in two ways only.  It raises [AttributeError] for a
    drink that is no dict or whose category or name is not a string.  It
    raises [OverflowError] for a drink whose [abv] is a number beyond the
    range of the floats, which is then an int.  An [abv] of any other kind
    is absorbed. *)
Theorem is_beer_raises (d : json) (e : exn) :
  is_beer d = Raise e ->
  (e = AttributeError /\
   ((forall kv, d <> JDict kv) \/
    (exists v, get_default d "cat" (JStr "") = Ok v /\ not_text v) \/
    (exists v, get_default d "name" (JStr "") = Ok v /\ not_text v))) \/
  (e = OverflowError /\
   exists q, get_default d "abv" (JStr "") = Ok (JNum q) /\
             (overflow_bound <= Qabs q)%Q).
Proof.
  unfold is_beer; destruct d as [| | | | |kv];
    try (cbn; intros H; inversion H; left; split;
         [reflexivity | left; intros kv; discriminate]).
  destruct (get_default (JDict kv) "cat" (JStr "")) as [c|] eqn:Hc;
    [|discriminate Hc].
  cbn [bind]; destruct c as [| | |c| |];
    try (cbn; intros H; inversion H; left; split;
         [reflexivity | right; left; eexists; split;
                        [reflexivity | intros s; discriminate]]).
  cbn [py_lower bind].
  destruct (get_default (JDict kv) "abv" (JStr "")) as [abv|] eqn:Ha;
    [|discriminate Ha].
  cbn [bind]; unfold abv_gate.
  destruct (py_float abv) as [x|e'] eqn:Ef.
  - cbn [bind]; destruct (negb (le_zero x)); cbn [negb]; [|discriminate].
    destruct (get_default (JDict kv) "name" (JStr "")) as [n|] eqn:Hn;
      [|discriminate Hn].
    cbn [bind]; destruct n as [| | |n| |];
      try (cbn; intros H; inversion H; left; split;
           [reflexivity | right; right; eexists; split;
                          [reflexivity | intros s; discriminate]]).
    cbn [py_lower bind]; destruct (existsb _ exclude); discriminate.
  - destruct (py_float_raises abv e' Ef) as [-> | [-> | [-> [q [-> Hq]]]]].
    + cbn [bind]; destruct (existsb _ BEER_CATS); cbn [negb]; [|discriminate].
      destruct (get_default (JDict kv) "name" (JStr "")) as [n|] eqn:Hn;
        [|discriminate Hn].
      cbn [bind]; destruct n as [| | |n| |];
        try (cbn; intros H; inversion H; left; split;
             [reflexivity | right; right; eexists; split;
                            [reflexivity | intros s; discriminate]]).
      cbn [py_lower bind]; destruct (existsb _ exclude); discriminate.
    + cbn [bind]; destruct (existsb _ BEER_CATS); cbn [negb]; [|discriminate].
      destruct (get_default (JDict kv) "name" (JStr "")) as [n|] eqn:Hn;
        [|discriminate Hn].
      cbn [bind]; destruct n as [| | |n| |];
        try (cbn; intros H; inversion H; left; split;
             [reflexivity | right; right; eexists; split;
                            [reflexivity | intros s; discriminate]]).
      cbn [py_lower bind]; destruct (existsb _ exclude); discriminate.
    + cbn [bind]; intros H; inversion H; right; split; [reflexivity|].
      exists q; split; [reflexivity | exact Hq].
Qed.

Lemma is_beer_raises_witness :
  (AttributeError = AttributeError /\
   ((forall kv, JDict [("name", JStr "Carling"); ("cat", JNull)] <> JDict kv) \/
    (exists v, get_default (JDict [("name", JStr "Carling"); ("cat", JNull)])
                 "cat" (JStr "") = Ok v /\ not_text v) \/
    (exists v, get_default (JDict [("name", JStr "Carling"); ("cat", JNull)])
                 "name" (JStr "") = Ok v /\ not_text v))) \/
  (AttributeError = OverflowError /\
   exists q, get_default (JDict [("name", JStr "Carling"); ("cat", JNull)])
               "abv" (JStr "") = Ok (JNum q) /\
             (overflow_bound <= Qabs q)%Q).
Proof.
  apply (is_beer_raises (JDict [("name", JStr "Carling"); ("cat", JNull)])).
  reflexivity.
Defined.

(** ** The drink list of a pub *)

Lemma scalar_eqb_refl (v : json) : hashable v = true -> scalar_eqb v v = true.
Proof.
  destruct v as [|[|]|q|s| |]; cbn; try discriminate; try reflexivity.
  - intros _; apply Qeq_bool_refl.
  - intros _; apply String.eqb_refl.
Qed.

Lemma key_eqb_refl (n : json) (p : Q) :
  hashable n = true -> key_eqb (n, p) (n, p) = true.
Proof.
  intros H; unfold key_eqb; cbn [fst snd].
  now rewrite (scalar_eqb_refl n H), Qeq_bool_refl.
Qed.

(** Every entry comes from a drink on sale, and every drink on sale has
    an entry with its key, or had its key in [seen]. *)
Lemma dedup_loop_entries (beers : list json) :
  forall seen acc out,
    dedup_loop beers seen acc = Ok out ->
    exists l,
      out = acc ++ l /\
      (forall e, In e l -> exists d, In d beers /\ entry_of d e) /\
      (forall d, In d beers -> in_stock_priced d = Ok true ->
         exists e0, entry_of d e0 /\
           (mem_key (key_of e0) seen = true \/
            exists e, In e l /\ key_eqb (key_of e0) (key_of e) = true)).
Proof.
  induction beers as [|d rest IH]; intros seen acc out; cbn [dedup_loop].
  - intros H; inversion H; subst; exists []; split; [now rewrite app_nil_r|].
    split; intros ? [].
  - destruct (in_stock_priced d) as [[|]|] eqn:Ec; cbn [bind]; [| |discriminate].
    + destruct (subscript d "name") as [n|] eqn:En; cbn [bind]; [|discriminate].
      destruct (subscript d "pint") as [pj|] eqn:Ep; cbn [bind]; [|discriminate].
      destruct (num_of pj) as [p|] eqn:Eq; cbn [bind]; [|discriminate].
      destruct (hashable n) eqn:Eh; [|discriminate].
      destruct (get_default d "abv" (JStr "")) as [abv|] eqn:Ea.
      2:{ destruct d; cbn in Ea; try discriminate Ea; cbn in En; discriminate En. }
      set (e0 := {| sd_name := n; sd_price := p; sd_abv := abv |}).
      assert (He0 : entry_of d e0).
      { repeat split; try assumption; exists pj; now split. }
      destruct (mem_key (n, p) seen) eqn:Em; cbn [negb bind].
      * intros H; destruct (IH _ _ _ H) as [l [Hout [Hs Hc]]].
        exists l; split; [exact Hout|]; split.
        -- intros e He; destruct (Hs e He) as [d' [Hd' He']].
           exists d'; split; [now right | exact He'].
        -- intros d' [<- | Hd'] Hsel.
           ++ exists e0; split; [exact He0 | now left].
           ++ now apply Hc.
      * intros H; destruct (IH _ _ _ H) as [l [Hout [Hs Hc]]].
        exists (e0 :: l); split; [now rewrite Hout, <- app_assoc|]; split.
        -- intros e [<- | He]; [exists d; split; [now left | exact He0]|].
           destruct (Hs e He) as [d' [Hd' He']].
           exists d'; split; [now right | exact He'].
        -- intros d' [<- | Hd'] Hsel.
           ++ exists e0; split; [exact He0|]; right.
              exists e0; split; [now left | now apply key_eqb_refl].
           ++ destruct (Hc d' Hd' Hsel) as [e1 [He1 Hk]].
              exists e1; split; [exact He1|].
              destruct Hk as [Hk | [e [He Hk]]].
              ** cbn [mem_key existsb] in Hk; apply orb_true_iff in Hk.
                 destruct Hk as [Hk | Hk]; [|now left].
                 right; exists e0; split; [now left | exact Hk].
              ** right; exists e; split; [now right | exact Hk].
    + intros H; destruct (IH _ _ _ H) as [l [Hout [Hs Hc]]].
      exists l; split; [exact Hout|]; split.
      * intros e He; destruct (Hs e He) as [d' [Hd' He']].
        exists d'; split; [now right | exact He'].
      * intros d' [<- | Hd'] Hsel; [congruence | now apply Hc].
Qed.

(** A drink on sale enters the list unless its key was seen. *)
Lemma fresh_not_seen (seen : list key) (l : list simple_drink) :
  fresh seen l ->
  forall k e, In k seen -> In e l -> key_eqb (key_of e) k = false.
Proof.
  induction 1 as [seen | seen d l Hh Hp Hm Hl IH]; intros k e Hk; [intros []|].
  intros [<- | He].
  - destruct (key_eqb (key_of d) k) eqn:E; [|reflexivity].
    assert (Ht : mem_key (key_of d) seen = true); [|congruence].
    apply existsb_exists; now exists k.
  - apply IH; [now right | exact He].
Qed.

Lemma fresh_distinct (seen : list key) (l : list simple_drink) :
  fresh seen l ->
  ForallOrdPairs (fun a b => key_eqb (key_of b) (key_of a) = false) l.
Proof.
  induction 1 as [seen | seen d l Hh Hp Hm Hl IH]; constructor; [|exact IH].
  apply Forall_forall; intros e He.
  apply (fresh_not_seen _ _ Hl); [now left | exact He].
Qed.

Lemma scalar_eqb_sym (a b : json) : scalar_eqb a b = scalar_eqb b a.
Proof.
  destruct a as [|[|]|q|s| |], b as [|[|]|q'|s'| |]; cbn [scalar_eqb as_num];
    try reflexivity; try apply Qeq_bool_comm; apply String.eqb_sym.
Qed.

Lemma key_eqb_sym (a b : key) : key_eqb a b = key_eqb b a.
Proof.
  unfold key_eqb; now rewrite scalar_eqb_sym, Qeq_bool_comm.
Qed.

Lemma ForallOrdPairs_perm {A : Type} (R : A -> A -> Prop) (l l' : list A) :
  (forall a b, R a b -> R b a) ->
  Permutation l l' -> ForallOrdPairs R l -> ForallOrdPairs R l'.
Proof.
  intros Hsym; induction 1 as [|x l l' Hp IH|x y l|l l' l'' H1 IH1 H2 IH2];
    intros H.
  - exact H.
  - inversion H; subst; constructor; [|auto].
    eapply Permutation_Forall; eassumption.
  - inversion H as [|? ? Hy Hl]; subst.
    inversion Hl as [|? ? Hx Hl']; subst.
    inversion Hy; subst.
    constructor; [constructor; [now apply Hsym | assumption]|].
    constructor; assumption.
  - auto.
Qed.

Lemma select_prices_source (beers : list json) :
  forall prices,
    select_prices beers = Ok prices ->
    forall pj, In pj prices ->
      exists d, In d beers /\ in_stock_priced d = Ok true /\
                subscript d "pint" = Ok pj.
Proof.
  unfold select_prices; induction beers as [|d l IH]; intros prices;
    cbn [comprehension].
  - intros H; inversion H; intros ? [].
  - destruct (in_stock_priced d) as [[|]|] eqn:Ed; cbn [bind]; [| |discriminate].
    + destruct (subscript d "pint") as [p|] eqn:Ep; cbn [bind]; [|discriminate].
      destruct (comprehension _ _ l) as [r|]; cbn [bind]; [|discriminate].
      intros H; inversion H; subst; intros pj [<- | Hin].
      * exists d; split; [now left | split; assumption].
      * destruct (IH r eq_refl pj Hin) as [d' [Hd' H']].
        exists d'; split; [now right | exact H'].
    + intros H pj Hin; destruct (IH prices H pj Hin) as [d' [Hd' H']].
      exists d'; split; [now right | exact H'].
Qed.

Lemma numbers_source (prices : list json) :
  forall nums,
    numbers prices = Ok nums ->
    forall q, In q nums -> exists pj, In pj prices /\ num_of pj = Ok q.
Proof.
  unfold numbers; induction prices as [|v l IH]; intros nums; cbn [mapM].
  - intros H; inversion H; intros ? [].
  - destruct (num_of v) as [x|] eqn:Ex; cbn [bind]; [|discriminate].
    destruct (mapM num_of l) as [r|]; cbn [bind]; [|discriminate].
    intros H; inversion H; subst; intros q [<- | Hin].
    + exists v; split; [now left | exact Ex].
    + destruct (IH r eq_refl q Hin) as [pj [Hpj H']].
      exists pj; split; [now right | exact H'].
Qed.

(** What a successful run of the loop body has computed. *)
Lemma reduce_venue_inv (pub : json) (v : clean_pub) :
  reduce_venue pub = Ok (Some v) ->
  exists beers prices nums unsorted,
    beers_of pub = Ok beers /\
    select_prices beers = Ok prices /\
    prices <> [] /\
    numbers prices = Ok nums /\
    py_min nums = Ok (cp_min v) /\
    py_max nums = Ok (cp_max v) /\
    first_name (cp_min v) beers = Ok (cp_cheapest v) /\
    dedup beers = Ok unsorted /\
    cp_drinks v = sort_by sd_price unsorted /\
    cp_beers v = List.length (cp_drinks v) /\
    cp_avg v = round2 (Qsum nums / inject_Z (Z.of_nat (List.length prices))) /\
    subscript pub "name" = Ok (cp_name v) /\
    subscript pub "town" = Ok (cp_town v) /\
    get_default pub "county" (JStr "") = Ok (cp_county v).
Proof.
  unfold reduce_venue.
  destruct (beers_of pub) as [beers|] eqn:Eb; cbn [bind]; [|discriminate].
  unfold summarise.
  destruct beers as [|b0 beers']; [discriminate|].
  destruct (select_prices (b0 :: beers')) as [prices|] eqn:Ep; cbn [bind];
    [|discriminate].
  destruct prices as [|p0 prices']; [discriminate|].
  destruct (numbers (p0 :: prices')) as [nums|] eqn:En; cbn [bind];
    [|discriminate].
  unfold py_div at 1; cbn [List.length bind].
  destruct (py_min nums) as [lo|] eqn:Elo; cbn [bind]; [|discriminate].
  destruct (py_max nums) as [hi|] eqn:Ehi; cbn [bind]; [|discriminate].
  destruct (first_name lo (b0 :: beers')) as [nm|] eqn:Ef; cbn [bind];
    [|discriminate].
  destruct (dedup (b0 :: beers')) as [unsorted|] eqn:Ed; cbn [bind];
    [|discriminate].
  destruct (subscript pub "name") as [name|] eqn:E1; cbn [bind]; [|discriminate].
  destruct (get pub "ref"); cbn [bind]; [|discriminate].
  destruct (subscript pub "town") as [town|] eqn:E2; cbn [bind]; [|discriminate].
  destruct (get_default pub "county" (JStr "")) as [county|] eqn:E3;
    cbn [bind]; [|discriminate].
  do 3 bind_ok.
  intros H; inversion H; subst v; clear H.
  exists (b0 :: beers'), (p0 :: prices'), nums, unsorted.
  cbn [cp_min cp_max cp_cheapest cp_drinks cp_beers cp_avg cp_name cp_town
       cp_county].
  repeat split; try assumption; discriminate.
Qed.

(** The drink list of a reduced pub is not empty, [beers] is its length,
    it is in ascending order of price, and no two of its entries have the
    same name and price. *)
Theorem drink_list_sorted_distinct (pub : json) (v : clean_pub) :
  reduce_venue pub = Ok (Some v) ->
  cp_drinks v <> [] /\
  cp_beers v = List.length (cp_drinks v) /\
  StronglySorted (key_le sd_price) (cp_drinks v) /\
  ForallOrdPairs (fun a b => key_eqb (key_of a) (key_of b) = false) (cp_drinks v).
Proof.
  intros H; destruct (reduce_venue_inv pub v H)
    as [beers [prices [nums [unsorted
         [Hb [Hp [Hne [Hn [_ [_ [_ [Hd [Hs [Hl _]]]]]]]]]]]]]].
  pose proof (sort_by_perm sd_price unsorted) as Hperm; rewrite <- Hs in Hperm.
  unfold dedup in Hd.
  destruct (dedup_loop_fresh _ _ _ _ Hd) as [l [Hl' Hf]]; cbn [app] in Hl'; subst l.
  destruct (dedup_loop_entries _ _ _ _ Hd) as [l [Hl' [_ Hc]]];
    cbn [app] in Hl'; subst l.
  split; [|split; [|split]].
  - destruct prices as [|p0 prices']; [congruence|].
    destruct (select_prices_source _ _ Hp p0 (or_introl eq_refl))
      as [d [Hd' [Hsel _]]].
    destruct (Hc d Hd' Hsel) as [e0 [_ [Hk | [e [He _]]]]]; [discriminate Hk|].
    intros E; apply (Permutation_in _ (Permutation_sym Hperm)) in He.
    now rewrite E in He.
  - exact Hl.
  - rewrite Hs; apply sort_by_sorted.
  - apply (ForallOrdPairs_perm _ unsorted);
      [| now apply Permutation_sym |].
    + intros a b Hab; now rewrite key_eqb_sym.
    + pose proof (fresh_distinct _ _ Hf) as Hdist.
      clear - Hdist; induction Hdist as [|a l Ha Hl IH]; constructor;
        [|exact IH].
      eapply Forall_impl; [|exact Ha].
      intros b Hb; now rewrite key_eqb_sym.
Qed.

Lemma drink_list_sorted_distinct_witness :
  exists v,
    reduce_venue (pub_with [ruddles; festival_ale; ruddles] moon_fields)
      = Ok (Some v) /\
    cp_beers v = 1%nat /\
    StronglySorted (key_le sd_price) (cp_drinks v).
Proof.
  eexists; split; [reflexivity|].
  split; [reflexivity|].
  apply (drink_list_sorted_distinct
           (pub_with [ruddles; festival_ale; ruddles] moon_fields) _ eq_refl).
Defined.

(** Every entry of the de-duplicated list is made of a drink on sale, and
    every drink on sale is represented by an entry with its name and
    price. *)
Theorem dedup_entries (beers : list json) (l : list simple_drink) :
  dedup beers = Ok l ->
  (forall e, In e l -> exists d, In d beers /\ entry_of d e) /\
  (forall d, In d beers -> in_stock_priced d = Ok true ->
     exists e0 e, entry_of d e0 /\ In e l /\
                  key_eqb (key_of e0) (key_of e) = true).
Proof.
  unfold dedup; intros H.
  destruct (dedup_loop_entries _ _ _ _ H) as [l' [Hl' [Hs Hc]]];
    cbn [app] in Hl'; subst l'.
  split; [exact Hs|].
  intros d Hd Hsel; destruct (Hc d Hd Hsel) as [e0 [He0 [Hk | [e [He Hk]]]]];
    [discriminate Hk|].
  now exists e0, e.
Qed.

Lemma dedup_entries_witness :
  exists l,
    dedup [ruddles; festival_ale; ruddles] = Ok l /\
    forall e, In e l ->
      exists d, In d [ruddles; festival_ale; ruddles] /\ entry_of d e.
Proof.
  eexists; split; [reflexivity|].
  apply (dedup_entries [ruddles; festival_ale; ruddles] _ eq_refl).
Defined.

(** ** The name of the cheapest drink *)

(** The search returns the name of the first beer that passes its test,
    and [None] when no beer does. *)
Lemma first_name_spec (c : Q) (beers : list json) (nm : json) :
  first_name c beers = Ok nm ->
  (exists l1 d l2,
      beers = l1 ++ d :: l2 /\
      Forall (fun d' => ~ is_cheapest c d') l1 /\
      is_cheapest c d /\ subscript d "name" = Ok nm) \/
  (nm = JNull /\ Forall (fun d' => ~ is_cheapest c d') beers).
Proof.
  induction beers as [|d rest IH]; cbn [first_name].
  - intros H; inversion H; right; split; [reflexivity | constructor].
  - destruct (subscript d "pint") as [pj|] eqn:Ep; cbn [bind]; [|discriminate].
    assert (Hskip : ~ is_cheapest c d ->
                    first_name c rest = Ok nm ->
                    (exists l1 d0 l2,
                        d :: rest = l1 ++ d0 :: l2 /\
                        Forall (fun d' => ~ is_cheapest c d') l1 /\
                        is_cheapest c d0 /\ subscript d0 "name" = Ok nm) \/
                    (nm = JNull /\ Forall (fun d' => ~ is_cheapest c d') (d :: rest))).
    { intros Hno H; destruct (IH H) as [[l1 [d0 [l2 [E [Hl [Hd Hn]]]]]] | [E Hall]].
      - left; exists (d :: l1), d0, l2; rewrite E; repeat split; try assumption.
        now constructor.
      - right; split; [exact E | now constructor]. }
    destruct (num_eq pj c) eqn:Ec.
    + destruct (get d "oos") as [o|] eqn:Eo; cbn [bind]; [|discriminate].
      destruct (truthy o) eqn:Et; cbn [negb].
      * apply Hskip; intros [pj' [o' [H1 [H2 [H3 H4]]]]]; congruence.
      * intros H; left; exists [], d, rest; repeat split; try assumption.
        -- constructor.
        -- now exists pj, o.
    + apply Hskip; intros [pj' [o' [H1 [H2 [H3 H4]]]]]; congruence.
Qed.

Lemma in_stock_priced_oos (d : json) :
  in_stock_priced d = Ok true ->
  exists o, get d "oos" = Ok o /\ truthy o = false.
Proof.
  unfold in_stock_priced.
  destruct (get d "pint") as [p|]; cbn [bind]; [|discriminate].
  destruct (truthy p); [|discriminate].
  destruct (get d "oos") as [o|]; cbn [bind]; [|discriminate].
  intros H; inversion H; exists o; split; [reflexivity|].
  now destruct (truthy o).
Qed.

(** The name recorded as [cheapest] is the name of a beer of the pub: the
    first one that is not out of stock and whose [pint] equals the minimum
    price.  The default [None] of the search is never what a reduced pub
    gets. *)
Theorem cheapest_name_of_first_cheapest (pub : json) (v : clean_pub) :
  reduce_venue pub = Ok (Some v) ->
  exists l1 d l2,
    beers_of pub = Ok (l1 ++ d :: l2) /\
    Forall (fun d' => ~ is_cheapest (cp_min v) d') l1 /\
    is_cheapest (cp_min v) d /\
    subscript d "name" = Ok (cp_cheapest v).
Proof.
  intros H; destruct (reduce_venue_inv pub v H)
    as [beers [prices [nums [unsorted
         [Hb [Hp [Hne [Hn [Hlo [_ [Hf _]]]]]]]]]]].
  destruct (first_name_spec _ _ _ Hf)
    as [[l1 [d [l2 [E [Hl [Hd Hnm]]]]]] | [_ Hall]].
  - exists l1, d, l2; rewrite <- E; repeat split; assumption.
  - exfalso.
    destruct (numbers_source _ _ Hn _ (py_min_In _ _ Hlo)) as [pj [Hpj Hq]].
    destruct (select_prices_source _ _ Hp pj Hpj) as [d [Hd [Hsel Hpint]]].
    rewrite Forall_forall in Hall; apply (Hall d Hd).
    destruct (in_stock_priced_oos d Hsel) as [o [Ho Ht]].
    exists pj, o; repeat split; try assumption.
    unfold num_eq; unfold num_of in Hq.
    destruct (as_num pj) as [q|]; [|discriminate].
    inversion Hq; apply Qeq_bool_refl.
Qed.

Lemma cheapest_name_of_first_cheapest_witness :
  exists v l1 d l2,
    reduce_venue (pub_with [festival_ale; ruddles] moon_fields) = Ok (Some v) /\
    beers_of (pub_with [festival_ale; ruddles] moon_fields)
      = Ok (l1 ++ d :: l2) /\
    subscript d "name" = Ok (cp_cheapest v).
Proof.
  eexists.
  destruct (cheapest_name_of_first_cheapest
              (pub_with [festival_ale; ruddles] moon_fields) _ eq_refl)
    as [l1 [d [l2 [Hb [_ [_ Hn]]]]]].
  exists l1, d, l2; split; [reflexivity | split; assumption].
Defined.

(** ** Pubs that cannot fail *)











(** ** Regions *)

Lemma strip_idempotent (c : string) : strip (strip c) = strip c.
Proof.
  unfold strip, strip_chars; rewrite list_ascii_of_string_of_list_ascii.
  now rewrite (strip_by_idempotent whitespace _ whitespace_nonempty).
Qed.

Lemma REGION_MAP_regions_fixed :
  forallb (fun kv => match region_of (JStr (snd kv)) with
                     | Ok r => String.eqb r (snd kv)
                     | Raise _ => false
                     end) REGION_MAP = true.
Proof. vm_compute; reflexivity. Qed.

(** A region is its own region: mapping the result of the mapper again
    changes nothing, so regions never merge or split on a second pass. *)
Theorem region_of_idempotent (c r : string) :
  region_of (JStr c) = Ok r -> region_of (JStr r) = Ok r.
Proof.
  unfold region_of at 1; cbn [py_strip bind].
  destruct (assoc (strip c) REGION_MAP) as [r'|] eqn:E; intros H; inversion H;
    subst; clear H.
  - apply assoc_Some_In in E.
    pose proof (proj1 (forallb_forall _ _) REGION_MAP_regions_fixed _ E) as Hr.
    cbn [snd] in Hr.
    destruct (region_of (JStr r)) as [r0|]; [|discriminate].
    apply String.eqb_eq in Hr; now subst.
  - unfold region_of; cbn [py_strip bind].
    now rewrite strip_idempotent, E.
Qed.

Lemma region_of_idempotent_witness :
  region_of (JStr " Hammersmith & Fulham ") = Ok "London" /\
  region_of (JStr "London") = Ok "London".
Proof.
  split; [reflexivity|].
  apply (region_of_idempotent " Hammersmith & Fulham "); reflexivity.
Defined.

Lemma REGION_MAP_keys_resolve :
  forallb (fun kv => match region_of (JStr (fst kv)) with
                     | Ok r => String.eqb r (snd kv)
                     | Raise _ => false
                     end) REGION_MAP = true.
Proof. vm_compute; reflexivity. Qed.

(** Every key of [REGION_MAP], taken as a county, resolves to the region
    of its own entry, the key with a trailing space included: the lookup
    strips it first, and the stripped key is in the table with the same
    region. *)
Theorem region_of_table_key (k r : string) :
  In (k, r) REGION_MAP -> region_of (JStr k) = Ok r.
Proof.
  intros Hin.
  pose proof (proj1 (forallb_forall _ _) REGION_MAP_keys_resolve _ Hin) as H.
  cbn [fst snd] in H.
  destruct (region_of (JStr k)) as [r0|]; [|discriminate].
  apply String.eqb_eq in H; now subst.
Qed.

Lemma region_of_table_key_witness :
  region_of (JStr "Greater Manchester ") = Ok "North West".
Proof.
  apply region_of_table_key.
  apply (assoc_Some_In "Greater Manchester " "North West" REGION_MAP).
  reflexivity.
Defined.

Lemma group_regions_text (pubs : list clean_pub) :
  forall acc regions,
    group_regions pubs acc = Ok regions -> Forall county_is_text pubs.
Proof.
  induction pubs as [|p pubs IH]; intros acc regions; cbn [group_regions];
    [constructor|].
  destruct (cp_county p) as [| | |s| |] eqn:Ec; cbn; try discriminate.
  intros H; constructor; [now exists s | eapply IH; exact H].
Qed.

Lemma group_regions_not_text (pubs : list clean_pub) :
  Exists (fun p => not_text (cp_county p)) pubs ->
  forall acc, group_regions pubs acc = Raise AttributeError.
Proof.
  induction pubs as [|p pubs IH]; intros Hex acc; [inversion Hex|].
  cbn [group_regions].
  destruct (cp_county p) as [| | |s| |] eqn:Ec; cbn; try reflexivity.
  apply IH; inversion Hex as [? ? Hp | ? ? Hrest]; subst; [|exact Hrest].
  exfalso; rewrite Ec in Hp; now apply (Hp s).
Qed.

(** A single reduced pub whose county is not a string ([null], a number)
    makes the regional roll-up raise [AttributeError]: the loop strips the
    county of every pub. *)
Theorem regional_stats_county_not_text (pubs : list clean_pub) :
  Exists (fun p => not_text (cp_county p)) pubs ->
  regional_stats pubs = Raise AttributeError.
Proof.
  intros H; unfold regional_stats.
  now rewrite (group_regions_not_text pubs H []).
Qed.

Lemma regional_stats_county_not_text_witness :
  exists v,
    reduce_venue (pub_with [ruddles]
                    [("name", JStr "The Moon Under Water");
                     ("town", JStr "Leeds"); ("county", JNull)])
      = Ok (Some v) /\
    regional_stats [two_pubs_a; v] = Raise AttributeError.
Proof.
  eexists; split; [reflexivity|].
  apply regional_stats_county_not_text.
  apply Exists_cons_tl, Exists_cons_hd; intros s; discriminate.
Defined.

(** The entries of [regional] describe the pubs of their regions. *)
(** ** The report *)

Lemma mapM_In {A B : Type} (f : A -> result B) (l : list A) :
  forall r, mapM f l = Ok r ->
    forall y, In y r -> exists x, In x l /\ f x = Ok y.
Proof.
  induction l as [|a l IH]; intros r; cbn [mapM].
  - intros H; inversion H; intros ? [].
  - destruct (f a) as [b|] eqn:Ea; cbn [bind]; [|discriminate].
    destruct (mapM f l) as [bs|]; cbn [bind]; [|discriminate].
    intros H; inversion H; subst; intros y [<- | Hy].
    + exists a; split; [now left | exact Ea].
    + destruct (IH bs eq_refl y Hy) as [x [Hx Hf]].
      exists x; split; [now right | exact Hf].
Qed.

Lemma mapM_app {A B : Type} (f : A -> result B) (l1 l2 : list A) :
  mapM f (l1 ++ l2) =
  (r1 <- mapM f l1 ;; r2 <- mapM f l2 ;; Ok (r1 ++ r2)).
Proof.
  induction l1 as [|a l1 IH]; cbn [app mapM bind].
  - destruct (mapM f l2); reflexivity.
  - destruct (f a); cbn [bind]; [|reflexivity].
    rewrite IH; destruct (mapM f l1); cbn [bind]; [|reflexivity].
    destruct (mapM f l2); reflexivity.
Qed.

Lemma somes_app {A : Type} (l1 l2 : list (option A)) :
  somes (l1 ++ l2) = somes l1 ++ somes l2.
Proof.
  induction l1 as [|[a|] l1 IH]; cbn [app somes]; [reflexivity | | exact IH].
  now rewrite IH.
Qed.

Lemma somes_In {A : Type} (l : list (option A)) (a : A) :
  In a (somes l) -> In (Some a) l.
Proof.
  induction l as [|[b|] l IH]; cbn [somes]; [intros [] | |].
  - intros [<- | H]; [now left | right; auto].
  - intros H; right; auto.
Qed.

(** Each pub of [clean_pubs] is the reduction of a pub of the snapshot. *)
Lemma reduce_all_In (raw : json) (pubs : list clean_pub) (v : clean_pub) :
  reduce_all raw = Ok pubs -> In v pubs ->
  exists pub, reduce_venue pub = Ok (Some v).
Proof.
  unfold reduce_all.
  destruct (get_default raw "pubs" (JList [])) as [ps|]; cbn [bind];
    [|discriminate].
  destruct (iterate ps) as [l|]; cbn [bind]; [|discriminate].
  destruct (mapM reduce_venue l) as [rs|] eqn:E; cbn [bind]; [|discriminate].
  intros H Hv; inversion H; subst pubs.
  destruct (mapM_In _ _ _ E _ (somes_In _ _ Hv)) as [pub [_ Hp]].
  now exists pub.
Qed.

Lemma first_n_prefix {A : Type} (n i : nat) (l : list A) (a : A) :
  nth_error (firstn n l) i = Some a -> nth_error l i = Some a.
Proof.
  revert i l; induction n as [|n IH]; intros i l; cbn [firstn].
  - destruct i; discriminate.
  - destruct l as [|x l]; [destruct i; discriminate|].
    destruct i as [|i]; cbn [nth_error]; [auto | apply IH].
Qed.

(** What a successful [build] has computed. *)
Lemma build_inv (raw out : json) :
  build raw = Ok out ->
  exists unsorted mean regional meta fetch lo hi,
    reduce_all raw = Ok unsorted /\
    let clean_pubs := sort_by cp_avg unsorted in
    py_div (Qsum (map cp_avg clean_pubs))
           (List.length (map cp_avg clean_pubs)) = Ok mean /\
    regional_stats clean_pubs = Ok regional /\
    get_default raw "meta" (JDict []) = Ok meta /\
    get_default meta "fetchDate" (JStr "") = Ok fetch /\
    py_min (map cp_min clean_pubs) = Ok lo /\
    py_max (map cp_max clean_pubs) = Ok hi /\
    subscript out "regional" = Ok (JList (map region_json regional)) /\
    subscript out "cheapest" = Ok (JList (cheapest_board clean_pubs)) /\
    subscript out "pubs" = Ok (JList (map pub_entry clean_pubs)) /\
    meta_field out "fetchDate" = Ok fetch /\
    meta_field out "totalPubs" = Ok (JNat (List.length clean_pubs)) /\
    meta_field out "totalBeers"
      = Ok (JNat (list_sum (map cp_beers clean_pubs))) /\
    meta_field out "avgPint" = Ok (JNum (round2 mean)) /\
    meta_field out "cheapestPint" = Ok (JNum lo) /\
    meta_field out "mostExpensivePint" = Ok (JNum hi).
Proof.
  unfold build.
  destruct (reduce_all raw) as [unsorted|]; cbn [bind]; [|discriminate].
  destruct (py_div _ _) as [mean|] eqn:E1; cbn [bind]; [|discriminate].
  destruct (regional_stats _) as [regional|] eqn:E2; cbn [bind]; [|discriminate].
  destruct (get_default raw "meta" (JDict [])) as [meta|] eqn:E3; cbn [bind];
    [|discriminate].
  destruct (get_default meta "fetchDate" (JStr "")) as [fetch|] eqn:E4;
    cbn [bind]; [|discriminate].
  destruct (py_min _) as [lo|] eqn:E5; cbn [bind]; [|discriminate].
  destruct (py_max _) as [hi|] eqn:E6; cbn [bind]; [|discriminate].
  intros H; inversion H; subst out; clear H.
  exists unsorted, mean, regional, meta, fetch, lo, hi.
  split; [reflexivity|]; cbv zeta.
  repeat split; assumption.
Qed.

(** The cheapest leaderboard and the full list of pubs are read off the
    same list, sorted by ascending average: the leaderboard has at most 20
    entries and its i-th entry and the i-th pub of the full list are
    projections of the same reduced pub. *)
Theorem cheapest_board_is_prefix (raw out : json) :
  build raw = Ok out ->
  exists clean_pubs,
    StronglySorted (key_le cp_avg) clean_pubs /\
    subscript out "pubs" = Ok (JList (map pub_entry clean_pubs)) /\
    subscript out "cheapest"
      = Ok (JList (map cheapest_entry (firstn 20 clean_pubs))) /\
    List.length (firstn 20 clean_pubs) = Nat.min 20 (List.length clean_pubs) /\
    forall i p, nth_error (firstn 20 clean_pubs) i = Some p ->
                nth_error clean_pubs i = Some p.
Proof.
  intros H; destruct (build_inv raw out H)
    as [unsorted [mean [regional [meta [fetch [lo [hi [_ Hout]]]]]]]].
  cbv zeta in Hout.
  destruct Hout as [_ [_ [_ [_ [_ [_ [_ [Hc [Hp _]]]]]]]]].
  exists (sort_by cp_avg unsorted); repeat split.
  - apply sort_by_sorted.
  - exact Hp.
  - exact Hc.
  - apply length_firstn.
  - intros i p; apply first_n_prefix.
Qed.

Lemma cheapest_board_is_prefix_witness :
  exists out clean_pubs,
    build raw_one_pub = Ok out /\
    subscript out "cheapest"
      = Ok (JList (map cheapest_entry (firstn 20 clean_pubs))).
Proof.
  eexists.
  destruct (cheapest_board_is_prefix raw_one_pub _ eq_refl)
    as [clean_pubs [_ [_ [Hc _]]]].
  exists clean_pubs; split; [reflexivity | exact Hc].
Defined.

Lemma sorted_cut {A : Type} (key : A -> Q) (n : nat) (l : list A) :
  StronglySorted (key_le key) l ->
  forall a b, In a (firstn n l) -> In b (skipn n l) -> (key a <= key b)%Q.
Proof.
  revert l; induction n as [|n IH]; intros l Hs a b; cbn [firstn skipn];
    [intros []|].
  destruct l as [|x l]; [intros []|].
  inversion Hs as [|? ? Hl Hx]; subst.
  intros [<- | Ha] Hb.
  - rewrite Forall_forall in Hx; apply Hx.
    rewrite <- (firstn_skipn n l); apply in_or_app; now right.
  - now apply (IH l).
Qed.

(** In the full list of pubs a pub shows the first 10 entries of its drink
    list at most, while [beers] counts them all; the entries shown are the
    cheapest: none costs more than an entry left out. *)
Theorem pub_entry_cheapest_ten (pub : json) (v : clean_pub) :
  reduce_venue pub = Ok (Some v) ->
  let shown := firstn 10 (cp_drinks v) in
  subscript (pub_entry v) "drinks" = Ok (JList (map drink_json shown)) /\
  subscript (pub_entry v) "beers" = Ok (JNat (List.length (cp_drinks v))) /\
  List.length shown = Nat.min 10 (List.length (cp_drinks v)) /\
  forall a b, In a shown -> In b (skipn 10 (cp_drinks v)) ->
              (sd_price a <= sd_price b)%Q.
Proof.
  intros H; cbv zeta.
  destruct (reduce_venue_inv pub v H)
    as [beers [prices [nums [unsorted
         [_ [_ [_ [_ [_ [_ [_ [_ [Hs [Hl _]]]]]]]]]]]]]].
  split; [reflexivity|].
  split; [cbn; now rewrite Hl|].
  split; [apply length_firstn|].
  apply sorted_cut; rewrite Hs; apply sort_by_sorted.
Qed.

Lemma pub_entry_cheapest_ten_witness :
  exists v,
    reduce_venue (pub_with [ruddles; festival_ale] moon_fields) = Ok (Some v) /\
    List.length (firstn 10 (cp_drinks v)) = Nat.min 10 (List.length (cp_drinks v)).
Proof.
  eexists; split; [reflexivity|].
  apply (pub_entry_cheapest_ten
           (pub_with [ruddles; festival_ale] moon_fields) _ eq_refl).
Defined.

(** The figures of the section [meta]: the number of pubs is the number of
    reduced pubs, of which there is one at least; the cheapest pint has
    the value of the least of the pubs' minimum prices and the most
    expensive pint that of the greatest of their maximum prices, each
    reached by a pub. *)
Theorem national_figures (raw out : json) :
  build raw = Ok out ->
  exists pubs lo hi,
    reduce_all raw = Ok pubs /\ pubs <> [] /\
    meta_field out "totalPubs" = Ok (JNat (List.length pubs)) /\
    (exists v, meta_field out "cheapestPint" = Ok v /\ as_num v = Some lo) /\
    (exists v, meta_field out "mostExpensivePint" = Ok v /\
               as_num v = Some hi) /\
    (exists p, In p pubs /\ cp_min p = lo) /\
    (forall p, In p pubs -> lo <= cp_min p)%Q /\
    (exists p, In p pubs /\ cp_max p = hi) /\
    (forall p, In p pubs -> cp_max p <= hi)%Q.
Proof.
  intros H; destruct (build_inv raw out H)
    as [pubs [mean [regional [meta [fetch [lo [hi [Hr Hout]]]]]]]].
  cbv zeta in Hout.
  destruct Hout as [Hmean [_ [_ [_ [Hlo [Hhi
                     [_ [_ [_ [_ [Htot [_ [_ [Hcp Hme]]]]]]]]]]]]]].
  pose proof (sort_by_perm cp_avg pubs) as Hperm.
  set (sorted := sort_by cp_avg pubs) in *.
  assert (Hin : forall p, In p sorted <-> In p pubs).
  { intros p; split; apply Permutation_in;
      [exact Hperm | now apply Permutation_sym]. }
  assert (Hne : map cp_avg sorted <> []).
  { intros E; rewrite E in Hmean; discriminate Hmean. }
  exists pubs, lo, hi.
  split; [exact Hr|].
  split.
  { intros E; apply Hne; subst pubs; reflexivity. }
  split; [now rewrite <- (Permutation_length Hperm)|].
  split; [exists (JNum lo); split; [exact Hcp | reflexivity]|].
  split; [exists (JNum hi); split; [exact Hme | reflexivity]|].
  split; [|split; [|split]].
  - apply py_min_In, in_map_iff in Hlo; destruct Hlo as [p [E Hp]].
    exists p; split; [now apply Hin | exact E].
  - intros p Hp; apply (py_min_le _ _ Hlo); apply in_map; now apply Hin.
  - apply py_max_In, in_map_iff in Hhi; destruct Hhi as [p [E Hp]].
    exists p; split; [now apply Hin | exact E].
  - intros p Hp; apply (py_max_ge _ _ Hhi); apply in_map; now apply Hin.
Qed.

Lemma national_figures_witness :
  exists out pubs,
    build raw_one_pub = Ok out /\
    reduce_all raw_one_pub = Ok pubs /\
    meta_field out "totalPubs" = Ok (JNat (List.length pubs)).
Proof.
  eexists.
  destruct (national_figures raw_one_pub _ eq_refl)
    as [pubs [lo [hi [Hr [_ [Ht _]]]]]].
  exists pubs; split; [reflexivity | split; assumption].
Defined.

Lemma regional_stats_total (pubs : list clean_pub) :
  Forall county_is_text pubs -> exists regional, regional_stats pubs = Ok regional.
Proof.
  intros Hc; unfold regional_stats, regional_of.
  destruct (group_regions_spec pubs Hc [] (NoDup_nil _) (Forall_nil _))
    as [regions [Hg _]].
  rewrite Hg; cbn [bind].
  destruct (regional_entries regions) as [l [Hl _]].
  rewrite Hl; cbn [bind]; eauto.
Qed.

(** A run succeeds and writes the report as soon as the reduction of the
    pubs succeeds and keeps a pub, the counties of the pubs kept are
    strings and the section [meta] of the snapshot, if any, is a dict. *)
Theorem main_writes_report (raw : json) (fs : files) (pubs : list clean_pub)
    (m : list (string * json)) :
  reduce_all raw = Ok pubs ->
  pubs <> [] ->
  Forall county_is_text pubs ->
  get_default raw "meta" (JDict []) = Ok (JDict m) ->
  exists out, build raw = Ok out /\ main raw fs = (Some out, Ok tt).
Proof.
  intros Hr Hne Hc Hm.
  pose proof (sort_by_perm cp_avg pubs) as Hperm.
  assert (Hs : sort_by cp_avg pubs <> []).
  { intros E; rewrite E in Hperm; apply Permutation_nil in Hperm; congruence. }
  assert (Hb : exists out, build raw = Ok out).
  { unfold build; rewrite Hr; cbn [bind].
    destruct (sort_by cp_avg pubs) as [|p0 sorted] eqn:Es; [congruence|].
    cbn [map List.length py_div bind].
    destruct (regional_stats_total (p0 :: sorted)) as [regional ->].
    { apply (Permutation_Forall (Permutation_sym Hperm)); exact Hc. }
    cbn [bind]; rewrite Hm; cbn [bind get_default py_min py_max]; eauto. }
  destruct Hb as [out Hb]; exists out; split; [exact Hb|].
  unfold main; now rewrite Hb.
Qed.

Lemma main_writes_report_witness :
  exists out, build raw_one_pub = Ok out /\
              main raw_one_pub None = (Some out, Ok tt).
Proof.
  eapply (main_writes_report raw_one_pub None _ []).
  - vm_compute; reflexivity.
  - discriminate.
  - repeat constructor; eexists; reflexivity.
  - reflexivity.
Defined.

(** A pub that the reduction drops (no beer, or no beer on sale with a
    price) leaves no trace: the report is the one of the snapshot without
    that pub. *)
Theorem dropped_pub_leaves_no_trace (p : json) (l1 l2 : list json)
    (fields : list (string * json)) :
  reduce_venue p = Ok None ->
  build (raw_with (l1 ++ p :: l2) fields) = build (raw_with (l1 ++ l2) fields).
Proof.
  intros Hp.
  assert (Hr : reduce_all (raw_with (l1 ++ p :: l2) fields) =
               reduce_all (raw_with (l1 ++ l2) fields)).
  { unfold reduce_all, raw_with; cbn [get_default assoc String.eqb Ascii.eqb
                                      Bool.eqb bind iterate].
    change (assoc "pubs" (("pubs", JList (l1 ++ p :: l2)) :: fields))
      with (Some (JList (l1 ++ p :: l2))).
    change (assoc "pubs" (("pubs", JList (l1 ++ l2)) :: fields))
      with (Some (JList (l1 ++ l2))).
    cbn [iterate bind].
    rewrite !mapM_app; cbn [mapM]; rewrite Hp; cbn [bind].
    destruct (mapM reduce_venue l1) as [r1|]; cbn [bind]; [|reflexivity].
    destruct (mapM reduce_venue l2) as [r2|]; cbn [bind]; [|reflexivity].
    now rewrite !somes_app. }
  unfold build; rewrite Hr; reflexivity.
Qed.

Lemma dropped_pub_leaves_no_trace_witness :
  build (raw_with [pub_with [festival_ale] moon_fields;
                   pub_with [ruddles] moon_fields] []) =
  build (raw_with [pub_with [ruddles] moon_fields] []).
Proof.
  apply (dropped_pub_leaves_no_trace (pub_with [festival_ale] moon_fields)
           [] [pub_with [ruddles] moon_fields] []).
  reflexivity.
Defined.

(** ** Ties, small snapshots and missing fields *)

Lemma insert_by_stable {A : Type} (key : A -> Q) (k : Q) (x : A) (l : list A) :
  filter (fun a => Qeq_bool (key a) k) (insert_by key x l) =
  filter (fun a => Qeq_bool (key a) k) (x :: l).
Proof.
  induction l as [|y l IH]; cbn [insert_by]; [reflexivity|].
  destruct (Qle_bool (key x) (key y)) eqn:E; [reflexivity|].
  cbn [filter] in *; rewrite IH.
  destruct (Qeq_bool (key x) k) eqn:Ex; [|reflexivity].
  destruct (Qeq_bool (key y) k) eqn:Ey; [|reflexivity].
  apply Qeq_bool_eq in Ex, Ey.
  assert (Hle : (key x <= key y)%Q) by (rewrite Ex, Ey; apply Qle_refl).
  apply Qle_bool_iff in Hle; congruence.
Qed.

(** The sort is stable: the elements with a given key come out in the
    order in which they went in.  So pubs with equal averages, drinks with
    equal prices and regions with equal averages keep their order. *)
Theorem sort_by_stable {A : Type} (key : A -> Q) (k : Q) (l : list A) :
  filter (fun a => Qeq_bool (key a) k) (sort_by key l) =
  filter (fun a => Qeq_bool (key a) k) l.
Proof.
  induction l as [|x l IH]; cbn [sort_by]; [reflexivity|].
  rewrite insert_by_stable; cbn [filter]; now rewrite IH.
Qed.

(** With 20 reduced pubs at most, the two leaderboards list every pub, the
    priciest in the reverse order of the cheapest. *)
Theorem leaderboards_of_few_pubs (clean_pubs : list clean_pub) :
  (List.length clean_pubs <= 20)%nat ->
  cheapest_board clean_pubs = map cheapest_entry clean_pubs /\
  priciest_board clean_pubs = map priciest_entry (rev clean_pubs).
Proof.
  intros H; unfold cheapest_board, priciest_board, last_n; split.
  - now rewrite firstn_all2.
  - replace (List.length clean_pubs - 20)%nat with 0%nat by lia; reflexivity.
Qed.

Lemma leaderboards_of_few_pubs_witness :
  cheapest_board [two_pubs_a; two_pubs_b]
    = map cheapest_entry [two_pubs_a; two_pubs_b] /\
  priciest_board [two_pubs_a; two_pubs_b]
    = map priciest_entry [two_pubs_b; two_pubs_a].
Proof.
  apply (leaderboards_of_few_pubs [two_pubs_a; two_pubs_b]); cbn; lia.
Defined.


